(** * VoxBridge: the AudioProcessor component

    A shallow embedding of [src/components/AudioProcessor.tsx]: the
    per-participant audio tap (registry of monitoring chains over the
    Web Audio graph), the loudness callback with its threshold and
    throttle, the bounded debug log, and the React effect life cycle
    that drives them.

    Numbers that the source computes in IEEE binary64 ([Math.sqrt],
    [reduce] over the sample buffer, the comparison with 0.01) are
    primitive floats here; clock readings ([Date.now()], an integer
    number of milliseconds) are [Z]. The browser and the SDK are the
    environment: which host call throws, what the clock prints and which
    buffers the audio hardware delivers are inputs of the model. *)

Set Warnings "-inexact-float,-clear-no-such-hyp".
From Stdlib Require Import ZArith List Floats Uint63 Lia.
From stdpp Require Import gmap strings list.

Local Open Scope string_scope.
Local Open Scope Z_scope.

(** ** Loudness monitor *)

Module Loudness.

(** [dataArray.reduce((acc, val) => acc + val * val, 0)]: a left fold in
    double precision, the elements of the [Float32Array] read as numbers. *)
Definition sumSquares (dataArray : list float) : float :=
  fold_left (fun acc val => (acc + val * val)%float) dataArray 0%float.

(** [dataArray.length] as a number. *)
Definition lengthOf (dataArray : list float) : float :=
  PrimFloat.of_uint63 (Uint63.of_Z (Z.of_nat (length dataArray))).

(** [Math.sqrt(dataArray.reduce(...) / dataArray.length)] *)
Definition rms (dataArray : list float) : float :=
  PrimFloat.sqrt (sumSquares dataArray / lengthOf dataArray).

(** The formula as the specification words it: the square root of the
    mean of the squared samples. *)
Definition square (x : float) : float := (x * x)%float.

(** The count [n] as a number: the double nearest to [n], which is [n]
    itself below 2^53. Defined from the IEEE rounding of the integer, not
    from the conversion that the callback applies. *)
Definition numberOf (n : nat) : float :=
  SF2Prim (binary_normalize prec emax (Z.of_nat n) 0 false).

(** The same count, one sample at a time. *)
Fixpoint countByOnes (n : nat) : float :=
  match n with
  | O => 0%float
  | S k => (countByOnes k + 1)%float
  end.

Definition mean (xs : list float) : float :=
  (fold_left PrimFloat.add xs 0 / numberOf (length xs))%float.

Definition rms_spec (samples : list float) : float :=
  PrimFloat.sqrt (mean (map square samples)).

Definition LOG_INTERVAL : Z := 500.

(** The silence threshold of the source, [0.01] as a double. *)
Definition threshold : float := 0.01%float.

(** What the callback closes over: the arguments of [processAudioStream]
    and the mutable [lastLogTime]. *)
Record Closure : Type := mkClosure {
  isLocal : bool;
  participantName : string;
  closureSessionId : string;
  lastLogTime : Z
}.

(** The object handed to [console.log] on an emission. [rmsLevel] is kept
    as the number; the source prints it with [toFixed(4)]. *)
Record AudioLog : Type := mkAudioLog {
  logType : string;
  logParticipant : string;
  logSessionId : string;
  rmsLevel : float;
  timestamp : string
}.

Definition setLastLogTime (now : Z) (c : Closure) : Closure :=
  {| isLocal := isLocal c;
     participantName := participantName c;
     closureSessionId := closureSessionId c;
     lastLogTime := now |}.

(** [processorNode.onaudioprocess]: [dataArray] is the buffer as
    [getFloatTimeDomainData] has just filled it, [now] is [Date.now()],
    [clock] is [new Date().toLocaleTimeString()]. Returns the closure with
    its throttle state and the record logged, if any. *)
Definition onaudioprocess (c : Closure) (dataArray : list float) (now : Z)
    (clock : string) : Closure * option AudioLog :=
  let level := rms dataArray in
  if (threshold <? level)%float && (LOG_INTERVAL <? now - lastLogTime c) then
    (setLastLogTime now c,
     Some {| logType := if isLocal c then "Local Audio" else "Remote Audio";
             logParticipant := participantName c;
             logSessionId := closureSessionId c;
             rmsLevel := level;
             timestamp := clock |})
  else (c, None).

(** One delivery of the audio hardware to a chain. *)
Record Invocation : Type := mkInvocation {
  samples : list float;
  dateNow : Z;
  localeTime : string
}.

Definition invoke (c : Closure) (i : Invocation) : Closure * option AudioLog :=
  onaudioprocess c (samples i) (dateNow i) (localeTime i).

(** The successive invocations of one chain; the result lists the clock
    readings at which a record was emitted, oldest first. *)
Fixpoint emissions (c : Closure) (invs : list Invocation) : list Z :=
  match invs with
  | [] => []
  | i :: rest =>
      match invoke c i with
      | (c', Some _) => dateNow i :: emissions c' rest
      | (c', None) => emissions c' rest
      end
  end.

(** The closure after a run of invocations. *)
Definition after (c : Closure) (invs : list Invocation) : Closure :=
  fold_left (fun c i => fst (invoke c i)) invs c.

(** Consecutive elements are more than [gap] apart. *)
Fixpoint spaced (gap : Z) (ts : list Z) : Prop :=
  match ts with
  | a :: (b :: _) as rest => gap < b - a /\ spaced gap rest
  | _ => True
  end.

(** How many readings fall in the closed window [[t, t + width]]. *)
Definition inWindow (t width : Z) (ts : list Z) : nat :=
  length (filter (fun x => t <= x <= t + width) ts).

End Loudness.

(** ** Audio tap manager *)

Module Component.
Import Loudness.

(** *** What the SDK and the browser provide *)

(** A [MediaStream] is an opaque handle. *)
Definition MediaStream : Type := nat.

(** The fields of a participant that the component reads. [audioLevel] and
    the entries of [publishedTracks] are kept as JavaScript prints them in a
    template literal, their only use. *)
Record Participant : Type := mkParticipant {
  sessionId : string;
  name : string;
  audioStream : option MediaStream;
  isSpeaking : bool;
  audioLevel : string;
  publishedTracks : list string
}.

(** Nodes of the audio graph, by object identity. The destination node of a
    context is identified by the context. *)
Inductive AudioNode : Type :=
  | MediaStreamAudioSourceNode (id : nat)
  | AnalyserNode (id : nat)
  | ScriptProcessorNode (id : nat)
  | AudioDestinationNode (context : nat).

#[global] Instance AudioNode_eq_dec : EqDecision AudioNode.
Proof. solve_decision. Defined.

(** A registry entry: the three nodes of a monitoring chain. *)
Record Chain : Type := mkChain {
  sourceNode : nat;
  processorNode : nat;
  analyserNode : nat
}.

(** The host calls made inside the [try] block of [processAudioStream], in
    program order. *)
Inductive HostCall : Type :=
  | CreateMediaStreamSource
  | CreateAnalyser
  | CreateScriptProcessor
  | ConnectSourceToAnalyser
  | ConnectAnalyserToProcessor
  | ConnectProcessorToDestination.

#[global] Instance HostCall_eq_dec : EqDecision HostCall.
Proof. solve_decision. Defined.

(** The environment of one synchronous run of an effect: which host call, if
    any, throws while a chain is built on a given stream, and what
    [new Date().toLocaleTimeString()] prints. *)
Record Host : Type := mkHost {
  throwsAt : MediaStream -> option HostCall;
  toLocaleTimeString : string
}.

Inductive ConsoleEntry : Type :=
  | ConsoleLog (message : string)
  | ConsoleLogAudio (record : AudioLog)
  | ConsoleError (message : string) (error : HostCall).

(** *** State *)

(** The refs and the state of the component, the console, and the part of
    the browser's audio graph that the component builds. [handlers] maps a
    script processor node to its context and its [onaudioprocess] closure. *)
Record State : Type := mkState {
  audioContextRef : option nat;
  audioProcessorsRef : gmap string Chain;
  debugInfo : list string;
  console : list ConsoleEntry;
  nextId : nat;
  closedContexts : gset nat;
  connections : list (AudioNode * AudioNode);
  handlers : gmap nat (nat * Closure)
}.

Definition initial : State :=
  {| audioContextRef := None; audioProcessorsRef := ∅; debugInfo := [];
     console := []; nextId := 0; closedContexts := ∅; connections := [];
     handlers := ∅ |}.

Definition setAudioContextRef (v : option nat) (s : State) : State :=
  mkState v (audioProcessorsRef s) (debugInfo s) (console s) (nextId s)
    (closedContexts s) (connections s) (handlers s).

Definition setAudioProcessorsRef (v : gmap string Chain) (s : State) : State :=
  mkState (audioContextRef s) v (debugInfo s) (console s) (nextId s)
    (closedContexts s) (connections s) (handlers s).

Definition setDebugInfoState (v : list string) (s : State) : State :=
  mkState (audioContextRef s) (audioProcessorsRef s) v (console s) (nextId s)
    (closedContexts s) (connections s) (handlers s).

Definition setConsole (v : list ConsoleEntry) (s : State) : State :=
  mkState (audioContextRef s) (audioProcessorsRef s) (debugInfo s) v (nextId s)
    (closedContexts s) (connections s) (handlers s).

Definition setNextId (v : nat) (s : State) : State :=
  mkState (audioContextRef s) (audioProcessorsRef s) (debugInfo s) (console s) v
    (closedContexts s) (connections s) (handlers s).

Definition setClosedContexts (v : gset nat) (s : State) : State :=
  mkState (audioContextRef s) (audioProcessorsRef s) (debugInfo s) (console s)
    (nextId s) v (connections s) (handlers s).

Definition setConnections (v : list (AudioNode * AudioNode)) (s : State) : State :=
  mkState (audioContextRef s) (audioProcessorsRef s) (debugInfo s) (console s)
    (nextId s) (closedContexts s) v (handlers s).

Definition setHandlers (v : gmap nat (nat * Closure)) (s : State) : State :=
  mkState (audioContextRef s) (audioProcessorsRef s) (debugInfo s) (console s)
    (nextId s) (closedContexts s) (connections s) v.

(** *** Computations: state threaded through, a host call may throw *)

Inductive Outcome (A : Type) : Type :=
  | Returned (a : A)
  | Thrown (error : HostCall).
Arguments Returned {A} a.
Arguments Thrown {A} error.

Definition M (A : Type) : Type := State -> Outcome A * State.

Definition ret {A} (a : A) : M A := fun s => (Returned a, s).

Definition throw {A} (error : HostCall) : M A := fun s => (Thrown error, s).

Definition bind {A B} (m : M A) (k : A -> M B) : M B :=
  fun s => match m s with
           | (Returned a, s') => k a s'
           | (Thrown e, s') => (Thrown e, s')
           end.

Notation "x <- m ;; k" := (bind m (fun x => k))
  (at level 100, m at next level, right associativity).
Notation "m ;; k" := (bind m (fun _ => k))
  (at level 100, right associativity).

(** [try { body } catch (error) { handler }]: what [body] did to the state
    before it threw stays done. *)
Definition tryCatch (body : M unit) (handler : HostCall -> M unit) : M unit :=
  fun s => match body s with
           | (Returned a, s') => (Returned a, s')
           | (Thrown e, s') => handler e s'
           end.

Definition modify (f : State -> State) : M unit := fun s => (Returned tt, f s).

Definition exec {A} (m : M A) (s : State) : State := snd (m s).

(** [list.forEach(callback)] *)
Fixpoint forEach {A} (callback : A -> M unit) (l : list A) : M unit :=
  match l with
  | [] => ret tt
  | x :: rest => callback x ;; forEach callback rest
  end.

Definition consoleLog (message : string) : M unit :=
  modify (fun s => setConsole (console s ++ [ConsoleLog message]) s).

Definition consoleError (message : string) (error : HostCall) : M unit :=
  modify (fun s => setConsole (console s ++ [ConsoleError message error]) s).

(** [setDebugInfo(prev => f(prev))] *)
Definition setDebugInfo (f : list string -> list string) : M unit :=
  modify (fun s => setDebugInfoState (f (debugInfo s)) s).

(** [prev.slice(-n)]: the last [n] elements, all of them when there are
    fewer. *)
Definition sliceLast {A} (n : nat) (l : list A) : list A :=
  drop (length l - n) l.

Definition addDebugLog (h : Host) (message : string) : M unit :=
  consoleLog message ;;
  setDebugInfo (fun prev =>
    (sliceLast 20 prev ++ [toLocaleTimeString h +:+ ": " +:+ message])%list).

(** *** Host calls *)

(** A call made while a chain is built on [stream]: it throws when the
    environment says that this is the call that fails. *)
Definition hostCall (h : Host) (stream : MediaStream) (call : HostCall) : M unit :=
  if decide (throwsAt h stream = Some call) then throw call else ret tt.

(** A new object identity. *)
Definition fresh : M nat :=
  fun s => (Returned (nextId s), setNextId (S (nextId s)) s).

Definition createMediaStreamSource (h : Host) (stream : MediaStream) : M nat :=
  hostCall h stream CreateMediaStreamSource ;; fresh.

Definition createAnalyser (h : Host) (stream : MediaStream) : M nat :=
  hostCall h stream CreateAnalyser ;; fresh.

Definition createScriptProcessor (h : Host) (stream : MediaStream) : M nat :=
  hostCall h stream CreateScriptProcessor ;; fresh.

(** [from.connect(to)] *)
Definition connect (h : Host) (stream : MediaStream) (call : HostCall)
    (from to : AudioNode) : M unit :=
  hostCall h stream call ;;
  modify (fun s => setConnections (connections s ++ [(from, to)]) s).

(** [node.disconnect()]: every outgoing connection of [node] goes. *)
Definition disconnect (node : AudioNode) : M unit :=
  modify (fun s =>
    setConnections (filter (fun e => e.1 ≠ node) (connections s)) s).

(** [new AudioContext()], stored in [audioContextRef.current]. *)
Definition newAudioContext : M unit :=
  ctx <- fresh ;;
  modify (setAudioContextRef (Some ctx)).

(** [audioContextRef.current?.close()] *)
Definition closeAudioContext : M unit :=
  modify (fun s =>
    match audioContextRef s with
    | Some ctx => setClosedContexts ({[ctx]} ∪ closedContexts s) s
    | None => s
    end).

(** *** The component *)

(** The body of the [try] block of [processAudioStream]. *)
Definition buildChain (h : Host) (audioContext : nat) (stream : MediaStream)
    (sessionId participantName : string) (isLocal : bool) : M unit :=
  sourceNode <- createMediaStreamSource h stream ;;
  analyserNode <- createAnalyser h stream ;;
  processorNode <- createScriptProcessor h stream ;;
  connect h stream ConnectSourceToAnalyser
    (MediaStreamAudioSourceNode sourceNode) (AnalyserNode analyserNode) ;;
  connect h stream ConnectAnalyserToProcessor
    (AnalyserNode analyserNode) (ScriptProcessorNode processorNode) ;;
  connect h stream ConnectProcessorToDestination
    (ScriptProcessorNode processorNode) (AudioDestinationNode audioContext) ;;
  modify (fun s =>
    setHandlers
      (<[processorNode :=
           (audioContext, mkClosure isLocal participantName sessionId 0)]>
         (handlers s)) s) ;;
  modify (fun s =>
    setAudioProcessorsRef
      (<[sessionId := mkChain sourceNode processorNode analyserNode]>
         (audioProcessorsRef s)) s) ;;
  addDebugLog h ("Set up audio processing for " +:+ participantName).

Definition processAudioStream (h : Host) (stream : MediaStream)
    (sessionId participantName : string) (isLocal : bool) : M unit :=
  fun s =>
    match audioContextRef s with
    | None => (Returned tt, s)
    | Some audioContext =>
        tryCatch
          (buildChain h audioContext stream sessionId participantName isLocal)
          (fun error => consoleError "Error processing audio:" error) s
    end.

(** The body of the first effect (dependency: [localParticipant]). Effects
    run in a browser, where [typeof window !== 'undefined']. *)
Definition setupEffect (h : Host) (localParticipant : option Participant) : M unit :=
  newAudioContext ;;
  addDebugLog h "AudioContext created" ;;
  match localParticipant with
  | Some lp =>
      match audioStream lp with
      | Some stream =>
          addDebugLog h "Local participant audio detected" ;;
          processAudioStream h stream (sessionId lp) "Local User" true
      | None => ret tt
      end
  | None => ret tt
  end.

(** The function the first effect returns: the global teardown. The loop
    visits the entries of the registry; the order of the visits does not
    matter to what is left of the connections. *)
Definition cleanupEffect (h : Host) : M unit :=
  closeAudioContext ;;
  (fun s =>
     forEach
       (fun entry : string * Chain =>
          disconnect (MediaStreamAudioSourceNode (sourceNode entry.2)) ;;
          disconnect (ScriptProcessorNode (processorNode entry.2)))
       (map_to_list (audioProcessorsRef s)) s) ;;
  modify (setAudioProcessorsRef ∅) ;;
  addDebugLog h "AudioContext cleaned up".

Definition showBool (b : bool) : string := if b then "true" else "false".

(** The callback of [remoteParticipants.forEach]. *)
Definition checkParticipant (h : Host) (participant : Participant) : M unit :=
  addDebugLog h ("Checking participant " +:+ name participant +:+ ":") ;;
  addDebugLog h ("- Is Speaking: " +:+ showBool (isSpeaking participant)) ;;
  addDebugLog h ("- Audio Level: " +:+ audioLevel participant) ;;
  addDebugLog h
    ("- Published Tracks: " +:+ String.concat ", " (publishedTracks participant)) ;;
  match audioStream participant with
  | Some stream =>
      fun s =>
        match audioProcessorsRef s !! sessionId participant with
        | None =>
            (addDebugLog h
               ("Setting up audio processing for " +:+ name participant) ;;
             processAudioStream h stream (sessionId participant)
               (name participant) false) s
        | Some _ => (Returned tt, s)
        end
  | None => addDebugLog h ("No audio available for " +:+ name participant)
  end.

(** The body of the second effect (dependency: [remoteParticipants]). *)
Definition remoteEffect (h : Host) (remoteParticipants : list Participant) : M unit :=
  forEach (checkParticipant h) remoteParticipants.

(** *** The audio hardware *)

(** The rule of the Web Audio host: a script processor node is served
    while its context is not closed; a closed context processes no audio. *)
Definition fires (s : State) (node : nat) : bool :=
  match handlers s !! node with
  | Some (ctx, _) => bool_decide (ctx ∉ closedContexts s)
  | None => false
  end.

(** The browser delivers one buffer to [node]: its [onaudioprocess] runs,
    unless the node has no handler or its context is closed. *)
Definition audioprocess (node : nat) (i : Invocation) : M unit :=
  fun s =>
    match handlers s !! node with
    | Some (ctx, c) =>
        if bool_decide (ctx ∉ closedContexts s) then
          let r := invoke c i in
          (Returned tt,
           setConsole
             (console s ++
                match r.2 with Some record => [ConsoleLogAudio record] | None => [] end)
             (setHandlers (<[node := (ctx, r.1)]> (handlers s)) s))
        else (Returned tt, s)
    | None => (Returned tt, s)
    end.

(** *** Life cycle *)

(** What React and the browser do to a mounted component: a new
    [localParticipant] runs the cleanup of the first effect and then its
    body again; a new [remoteParticipants] runs the second effect; the audio
    hardware delivers a buffer. *)
Inductive Event : Type :=
  | LocalParticipantChanged (localParticipant : option Participant)
  | RemoteParticipantsChanged (remoteParticipants : list Participant)
  | AudioProcess (node : nat) (i : Invocation).

Definition handle (h : Host) (e : Event) : M unit :=
  match e with
  | LocalParticipantChanged lp => cleanupEffect h ;; setupEffect h lp
  | RemoteParticipantsChanged rps => remoteEffect h rps
  | AudioProcess node i => audioprocess node i
  end.

(** Mounting runs both effects, in the order of the source. *)
Definition mount (h : Host) (localParticipant : option Participant)
    (remoteParticipants : list Participant) : M unit :=
  setupEffect h localParticipant ;; remoteEffect h remoteParticipants.

Inductive reachable : State -> Prop :=
  | reachable_mount h lp rps : reachable (exec (mount h lp rps) initial)
  | reachable_handle h e s : reachable s -> reachable (exec (handle h e) s).

(** Unmounting runs the cleanup of the first effect. *)
Definition unmount (h : Host) : M unit := cleanupEffect h.

(** *** Observations *)

(** The registry and the audio graph: everything but the two logs. *)
Definition wiring (s : State) :
    option nat * gmap string Chain * nat * gset nat *
    list (AudioNode * AudioNode) * gmap nat (nat * Closure) :=
  (audioContextRef s, audioProcessorsRef s, nextId s, closedContexts s,
   connections s, handlers s).

(** The state after a chain was built on a state [s] whose context is
    [audioContext], all host calls succeeding. *)
Definition attached (h : Host) (audioContext : nat)
    (sessionId participantName : string) (isLocal : bool) (s : State) : State :=
  {| audioContextRef := audioContextRef s;
     audioProcessorsRef :=
       <[sessionId := mkChain (nextId s) (S (S (nextId s))) (S (nextId s))]>
         (audioProcessorsRef s);
     debugInfo :=
       sliceLast 20 (debugInfo s) ++
       [toLocaleTimeString h +:+ ": " +:+
        ("Set up audio processing for " +:+ participantName)];
     console :=
       console s ++
       [ConsoleLog ("Set up audio processing for " +:+ participantName)];
     nextId := S (S (S (nextId s)));
     closedContexts := closedContexts s;
     connections :=
       connections s ++
       [(MediaStreamAudioSourceNode (nextId s), AnalyserNode (S (nextId s)));
        (AnalyserNode (S (nextId s)), ScriptProcessorNode (S (S (nextId s))));
        (ScriptProcessorNode (S (S (nextId s))), AudioDestinationNode audioContext)];
     handlers :=
       <[S (S (nextId s)) :=
           (audioContext, mkClosure isLocal participantName sessionId 0)]>
         (handlers s) |}.

(** The state after [addDebugLog h message]. *)
Definition logged (h : Host) (message : string) (s : State) : State :=
  setDebugInfoState
    (sliceLast 20 (debugInfo s) ++ [toLocaleTimeString h +:+ ": " +:+ message])
    (setConsole (console s ++ [ConsoleLog message]) s).


(** What the loop of the cleanup leaves of a list of connections. *)
Definition detachAll (entries : list (string * Chain))
    (es : list (AudioNode * AudioNode)) : list (AudioNode * AudioNode) :=
  fold_left
    (fun es entry =>
       filter (fun e => e.1 ≠ ScriptProcessorNode (processorNode entry.2))
         (filter (fun e => e.1 ≠ MediaStreamAudioSourceNode (sourceNode entry.2))
            es))
    entries es.

(** The state after the cleanup. *)
Definition tornDown (h : Host) (s : State) : State :=
  logged h "AudioContext cleaned up"
    (setAudioProcessorsRef ∅
       (setConnections
          (detachAll (map_to_list (audioProcessorsRef s)) (connections s))
          (match audioContextRef s with
           | Some ctx => setClosedContexts ({[ctx]} ∪ closedContexts s) s
           | None => s
           end))).

(** *** Invariants *)

(** Every handler belongs to a closed context or to the current one. *)
Definition handlersTracked (s : State) : Prop :=
  forall node ctx c,
    handlers s !! node = Some (ctx, c) ->
    ctx ∈ closedContexts s \/ audioContextRef s = Some ctx.

(** Every handler belongs to a closed context. *)
Definition handlersClosed (s : State) : Prop :=
  forall node ctx c, handlers s !! node = Some (ctx, c) -> ctx ∈ closedContexts s.

(** The analyser of every registered chain is connected to its processor,
    and the processor has a handler. *)
Definition chainsWired (s : State) : Prop :=
  forall sid chain,
    audioProcessorsRef s !! sid = Some chain ->
    (AnalyserNode (analyserNode chain), ScriptProcessorNode (processorNode chain))
      ∈ connections s /\
    is_Some (handlers s !! processorNode chain).

Definition consistent (s : State) : Prop := handlersTracked s /\ chainsWired s.

(** The sessions of the participants of a list that expose a stream. *)
Definition streaming (l : list Participant) : gset string :=
  list_to_set (sessionId <$> filter (fun p => is_Some (audioStream p)) l).

(** The state after the four lines that [checkParticipant] always logs. *)
Definition announced (h : Host) (p : Participant) (s : State) : State :=
  logged h ("- Published Tracks: " +:+ String.concat ", " (publishedTracks p))
    (logged h ("- Audio Level: " +:+ audioLevel p)
       (logged h ("- Is Speaking: " +:+ showBool (isSpeaking p))
          (logged h ("Checking participant " +:+ name p +:+ ":") s))).

(** *** Further observations *)

(** A participant of a notification that can be attached on host [h]: it
    exposes a stream on which no host call throws. *)
Definition canAttach (h : Host) (p : Participant) : bool :=
  match audioStream p with
  | Some stream => bool_decide (throwsAt h stream = None)
  | None => false
  end.

Definition attachable (h : Host) (l : list Participant) : gset string :=
  list_to_set (sessionId <$> filter (fun p => canAttach h p = true) l).

(** Deliveries of the audio hardware to several nodes, in order. *)
Definition deliver (ds : list (nat * Invocation)) : M unit :=
  forEach (fun d : nat * Invocation => audioprocess d.1 d.2) ds.

(** The invocations that a run of deliveries addresses to [node]. *)
Definition deliveredTo (node : nat) (ds : list (nat * Invocation)) : list Invocation :=
  snd <$> filter (fun d : nat * Invocation => d.1 = node) ds.

(** *** Invariants of the life cycle *)

Definition debugBounded (s : State) : Prop := (length (debugInfo s) <= 21)%nat.

(** Object identities in use are below the next one to be handed out. *)
Definition idsBelow (s : State) : Prop :=
  (forall ctx, ctx ∈ closedContexts s -> (ctx < nextId s)%nat) /\
  (forall ctx, audioContextRef s = Some ctx -> (ctx < nextId s)%nat) /\
  (forall node ctx cl, handlers s !! node = Some (ctx, cl) -> (node < nextId s)%nat).

(** A handler installed for the local participant carries the fixed name
    that the first effect passes. *)
Definition localNamed (s : State) : Prop :=
  forall node ctx cl,
    handlers s !! node = Some (ctx, cl) ->
    isLocal cl = true -> participantName cl = "Local User".

(** What can be said of a record that the callback has logged. *)
Definition audible (r : AudioLog) : Prop :=
  (threshold <? rmsLevel r)%float = true /\
  ((logType r = "Local Audio" /\ logParticipant r = "Local User") \/
   logType r = "Remote Audio").

Definition consoleAudible (s : State) : Prop :=
  forall r, ConsoleLogAudio r ∈ console s -> audible r.

(** The current context is open. *)
Definition contextOpen (s : State) : Prop :=
  exists ctx, audioContextRef s = Some ctx /\ ctx ∉ closedContexts s.

(** A registered chain is three consecutive nodes, and its processor holds
    a handler of the current context that was installed for its session. *)
Definition chainsLive (s : State) : Prop :=
  forall sid chain,
    audioProcessorsRef s !! sid = Some chain ->
    analyserNode chain = S (sourceNode chain) /\
    processorNode chain = S (S (sourceNode chain)) /\
    exists ctx cl,
      audioContextRef s = Some ctx /\
      handlers s !! processorNode chain = Some (ctx, cl) /\
      closureSessionId cl = sid.

(** What holds at every moment, also between a cleanup and the next run of
    the first effect. *)
Definition settled (s : State) : Prop :=
  debugBounded s /\ idsBelow s /\ localNamed s /\ consoleAudible s.

(** What holds whenever the effects have run. *)
Definition sound (s : State) : Prop :=
  settled s /\ contextOpen s /\ chainsLive s.

End Component.

Import Loudness Component.

(** ** Example data *)

(** A quiet buffer at the boundary: four samples of the double [0.01]. *)
Definition boundaryBuffer : list float := [0.01; 0.01; 0.01; 0.01]%float.

(** The same buffer as a [Float32Array] holds it: the single-precision
    number nearest to 0.01, read back as a double. *)
Definition boundaryBuffer32 : list float :=
  [0x1.47ae14p-7; 0x1.47ae14p-7; 0x1.47ae14p-7; 0x1.47ae14p-7]%float.

Definition squareWave : list float := [0.5; -0.5; 0.5; -0.5]%float.

Definition aliceClosure : Closure := mkClosure false "Alice" "s-alice" 0.

(** A chain that last logged at 1700000000000 ms. *)
Definition loggedClosure : Closure :=
  mkClosure false "Alice" "s-alice" 1700000000000.

(** A host on which every call succeeds, and one on which the last
    connection of a chain throws. *)
Definition okHost : Host := mkHost (fun _ => None) "10:00:00".

Definition badHost : Host :=
  mkHost (fun _ => Some ConnectProcessorToDestination) "10:00:01".

Definition alice : Participant :=
  mkParticipant "s-alice" "Alice" (Some 1%nat) false "0" ["audio"].

Definition bob : Participant :=
  mkParticipant "s-bob" "Bob" (Some 2%nat) true "0.3" ["audio"; "video"].

Definition carol : Participant :=
  mkParticipant "s-carol" "Carol" None false "0" [].

(** Mounted with no local stream and no remote participant. *)
Definition mountedAlone : State := exec (mount okHost None []) initial.

(** Alice attached by a direct call, once and twice. *)
Definition aliceAttached : State :=
  exec (processAudioStream okHost 1%nat "s-alice" "Alice" false) mountedAlone.

Definition aliceAttachedTwice : State :=
  exec (processAudioStream okHost 1%nat "s-alice" "Alice" false) aliceAttached.

(** Mounted with Alice present; then Bob and Carol join. *)
Definition mountedWithAlice : State := exec (mount okHost None [alice]) initial.

Definition threeRemote : State :=
  exec (handle okHost (RemoteParticipantsChanged [alice; bob; carol]))
    mountedWithAlice.

(** Bob's attachment fails on a mounted component. *)
Definition bobFailed : State :=
  exec (processAudioStream badHost 2%nat "s-bob" "Bob" false) mountedAlone.

(** The local participant changes after Bob and Carol joined. *)
Definition remounted : State :=
  exec (handle okHost (LocalParticipantChanged None)) threeRemote.

(** A host on which Alice's stream (1) makes the last connection throw
    and every other stream is fine. *)
Definition aliceFailsHost : Host :=
  mkHost (fun stream => if decide (stream = 1%nat) then
                          Some ConnectProcessorToDestination else None)
    "10:00:02".

(** Bob's last connection throws on a component mounted with Alice. *)
Definition bobOrphaned : State :=
  exec (processAudioStream badHost 2%nat "s-bob" "Bob" false) mountedWithAlice.

(** A local participant with a stream. *)
Definition dana : Participant :=
  mkParticipant "s-dana" "Dana" (Some 4%nat) true "0.6" ["audio"].

(** Alice's chain hears a loud buffer. *)
Definition aliceSpoke : State :=
  exec (handle okHost
          (AudioProcess 3 (mkInvocation squareWave 1700000000000 "10:00:05")))
    mountedWithAlice.

(** The record that Alice's chain logs for that buffer. *)
Definition aliceRecord : AudioLog :=
  mkAudioLog "Remote Audio" "Alice" "s-alice" (rms squareWave) "10:00:05".

(** A loud buffer delivered at a clock reading of 500 ms. *)
Definition loudAt500 : Invocation := mkInvocation squareWave 500 "00:00:00".

(** ** Facts about the loudness monitor *)

Section FloatOrder.

(** Comparison of floating-point data is antisymmetric (and undefined on a
    NaN in either order). *)
Lemma SFcompare_swap (a b : spec_float) :
  SFcompare b a = option_map CompOpp (SFcompare a b).
Proof.
  destruct a as [sa|sa| |sa ma ea], b as [sb|sb| |sb mb eb];
    try destruct sa; try destruct sb; try reflexivity.
  - simpl. rewrite (Z.compare_antisym ea eb).
    destruct (ea ?= eb)%Z; simpl; try reflexivity.
    now rewrite (Pos.compare_cont_antisym ma mb Eq).
  - simpl. rewrite (Z.compare_antisym ea eb).
    destruct (ea ?= eb)%Z; simpl; try reflexivity.
    now rewrite (Pos.compare_cont_antisym ma mb Eq).
Qed.

Lemma leb_not_gtb (x y : float) :
  (x <=? y)%float = true -> (y <? x)%float = false.
Proof.
  rewrite FloatAxioms.leb_spec, FloatAxioms.ltb_spec.
  unfold SFleb, SFltb. rewrite (SFcompare_swap (Prim2SF x) (Prim2SF y)).
  destruct (SFcompare (Prim2SF x) (Prim2SF y)) as [[]|]; simpl; congruence.
Qed.

End FloatOrder.

Section Gate.

Variables (c : Closure) (dataArray : list float) (now : Z) (clock : string).

Lemma onaudioprocess_emits :
  (threshold <? rms dataArray)%float = true ->
  LOG_INTERVAL < now - lastLogTime c ->
  onaudioprocess c dataArray now clock =
    (setLastLogTime now c,
     Some (mkAudioLog (if isLocal c then "Local Audio" else "Remote Audio")
             (participantName c) (closureSessionId c) (rms dataArray) clock)).
Proof.
  intros Hloud Hgap. unfold onaudioprocess. rewrite Hloud.
  apply Z.ltb_lt in Hgap. now rewrite Hgap.
Qed.

Lemma onaudioprocess_quiet :
  (threshold <? rms dataArray)%float = false ->
  onaudioprocess c dataArray now clock = (c, None).
Proof. intros Hq. unfold onaudioprocess. now rewrite Hq. Qed.

Lemma onaudioprocess_throttled :
  now - lastLogTime c <= LOG_INTERVAL ->
  onaudioprocess c dataArray now clock = (c, None).
Proof.
  intros Hgap. unfold onaudioprocess.
  apply Z.ltb_ge in Hgap. rewrite Hgap. now rewrite andb_false_r.
Qed.

Lemma onaudioprocess_cases :
  ((threshold <? rms dataArray)%float = true /\
   LOG_INTERVAL < now - lastLogTime c /\
   exists record,
     onaudioprocess c dataArray now clock = (setLastLogTime now c, Some record))
  \/
  (((threshold <? rms dataArray)%float = false \/
    now - lastLogTime c <= LOG_INTERVAL) /\
   onaudioprocess c dataArray now clock = (c, None)).
Proof.
  destruct (threshold <? rms dataArray)%float eqn:Hloud.
  - destruct (Z.lt_ge_cases LOG_INTERVAL (now - lastLogTime c)) as [Hgap|Hgap].
    + left. repeat split; trivial. eexists. now apply onaudioprocess_emits.
    + right. split; [now right | now apply onaudioprocess_throttled].
  - right. split; [now left | now apply onaudioprocess_quiet].
Qed.

End Gate.

Section Spacing.

Lemma spaced_tail gap a ts : spaced gap (a :: ts) -> spaced gap ts.
Proof. destruct ts as [|b ts]; simpl; tauto. Qed.

Lemma spaced_above gap a ts :
  0 <= gap -> spaced gap (a :: ts) -> Forall (fun x => a + gap < x) ts.
Proof.
  intros Hgap. revert a. induction ts as [|b ts IH]; intros a Hs.
  - constructor.
  - destruct Hs as [Hab Hrest]. constructor; [lia|].
    specialize (IH b Hrest).
    eapply Forall_impl; [exact IH|]. simpl. intros x Hx. lia.
Qed.

Lemma inWindow_none t width ts :
  Forall (fun x => t + width < x) ts -> inWindow t width ts = 0%nat.
Proof.
  unfold inWindow. induction 1 as [|x ts Hx _ IH]; [reflexivity|].
  rewrite filter_cons_False by lia. exact IH.
Qed.

Lemma inWindow_cons t width a ts :
  (inWindow t width (a :: ts) <= 1 + inWindow t width ts)%nat.
Proof.
  unfold inWindow. rewrite filter_cons. case_decide; simpl; lia.
Qed.

(** In a list whose consecutive elements are more than [gap] apart, a
    closed window of width [2 * gap] holds at most two elements. *)
Lemma spaced_window gap t ts :
  0 <= gap -> spaced gap ts -> (inWindow t (2 * gap) ts <= 2)%nat.
Proof.
  intros Hgap. induction ts as [|a ts IH]; intros Hs; [unfold inWindow; simpl; lia|].
  specialize (IH (spaced_tail _ _ _ Hs)).
  destruct (decide (t <= a <= t + 2 * gap)) as [Hin|Hout].
  - destruct ts as [|b ts].
    + unfold inWindow. rewrite filter_cons. case_decide; simpl; lia.
    + destruct Hs as [Hab Hrest].
      pose proof (spaced_above gap b ts Hgap Hrest) as Hfar.
      assert (inWindow t (2 * gap) ts = 0%nat) as Hnone.
      { apply inWindow_none. eapply Forall_impl; [exact Hfar|].
        simpl. intros x Hx. lia. }
      pose proof (inWindow_cons t (2 * gap) a (b :: ts)).
      pose proof (inWindow_cons t (2 * gap) b ts). lia.
  - unfold inWindow in *. rewrite filter_cons_False by exact Hout. exact IH.
Qed.

(** The emissions of a run are spaced, also from the closure's last one. *)
Lemma emissions_spaced_from c invs :
  spaced LOG_INTERVAL (lastLogTime c :: emissions c invs).
Proof.
  revert c. induction invs as [|i invs IH]; intros c; [exact I|].
  cbn [emissions]. unfold invoke.
  destruct (onaudioprocess_cases c (samples i) (dateNow i) (localeTime i))
    as [(_ & Hgap & record & ->)|[_ ->]].
  - split; [exact Hgap|]. exact (IH (setLastLogTime (dateNow i) c)).
  - apply IH.
Qed.

End Spacing.

(** ** The loudness metric *)

Lemma sumSquares_as_sum (l : list float) (acc : float) :
  fold_left (fun acc val => (acc + val * val)%float) l acc =
  fold_left PrimFloat.add (map square l) acc.
Proof.
  revert acc. induction l as [|x l IH]; intros acc; [reflexivity|].
  simpl. now rewrite IH.
Qed.

(** The conversion of the callback gives the count as a number, for every
    length a typed array can have. *)
Lemma lengthOf_numberOf (l : list float) :
  Z.of_nat (length l) < 2 ^ 53 -> lengthOf l = numberOf (length l).
Proof.
  intros Hlen. unfold lengthOf, numberOf.
  rewrite <- (SF2Prim_Prim2SF (of_uint63 (of_Z (Z.of_nat (length l))))).
  rewrite of_uint63_spec, Uint63.of_Z_spec, Z.mod_small; [reflexivity|].
  change wB with (2 ^ 63). split; [apply Nat2Z.is_nonneg|].
  eapply Z.lt_trans; [exact Hlen|reflexivity].
Qed.

(** Up to 4096 samples, four times the buffer of the component, the count
    as a number is what counting the samples one by one gives. *)
Lemma numberOf_counts (n : nat) : (n <= 4096)%nat -> numberOf n = countByOnes n.
Proof.
  intros Hn.
  assert (forallb (fun k => Leibniz.eqb (numberOf k) (countByOnes k))
            (seq 0 4097) = true) as Hall by (vm_compute; reflexivity).
  rewrite forallb_forall in Hall. apply FloatAxioms.Leibniz.eqb_spec, Hall.
  apply in_seq. lia.
Qed.

(** C4. For a buffer of any length a typed array can have, the level
    computed by the callback is the square root of the mean of the squared
    samples of the whole buffer, and it is that value which the callback
    compares with the threshold; on the buffer [0.5, -0.5, 0.5, -0.5] it
    is 0.5. *)
Theorem rms_root_mean_square (dataArray : list float) :
  Z.of_nat (length dataArray) < 2 ^ 53 ->
  rms dataArray = rms_spec dataArray /\
  (forall c now clock,
     is_Some (onaudioprocess c dataArray now clock).2 <->
     (threshold <? rms_spec dataArray)%float = true /\
     LOG_INTERVAL < now - lastLogTime c) /\
  rms squareWave = 0.5%float /\
  rms_spec squareWave = 0.5%float.
Proof.
  intros Hlen.
  assert (rms dataArray = rms_spec dataArray) as Heq.
  { unfold rms, rms_spec, mean, sumSquares.
    now rewrite sumSquares_as_sum, length_map, (lengthOf_numberOf _ Hlen). }
  split; [exact Heq|]. split; [|split; vm_compute; reflexivity].
  intros c now clock. rewrite <- Heq.
  destruct (onaudioprocess_cases c dataArray now clock)
    as [(Hloud & Hgap & record & ->)|[Hno ->]]; simpl.
  - split; eauto.
  - split; [intros [? [=]]|]. intros [Hloud Hgap].
    exfalso. destruct Hno as [Hno|Hno]; [congruence|lia].
Qed.

Lemma rms_root_mean_square_square_wave :
  rms squareWave = rms_spec squareWave /\
  (forall c now clock,
     is_Some (onaudioprocess c squareWave now clock).2 <->
     (threshold <? rms_spec squareWave)%float = true /\
     LOG_INTERVAL < now - lastLogTime c) /\
  rms squareWave = 0.5%float /\
  rms_spec squareWave = 0.5%float.
Proof.
  apply (rms_root_mean_square squareWave). vm_compute. reflexivity.
Defined.

(** ** Threshold *)

(** C3. A buffer whose level is at most 0.01 logs nothing and leaves the
    throttle state alone, whatever the clock says. *)
Theorem quiet_buffer_never_logs (c : Closure) (dataArray : list float)
    (now : Z) (clock : string) :
  (rms dataArray <=? threshold)%float = true ->
  onaudioprocess c dataArray now clock = (c, None).
Proof.
  intros Hle. apply onaudioprocess_quiet. now apply leb_not_gtb.
Qed.

(** The boundary buffer has level exactly 0.01 and logs nothing. *)
Lemma boundary_buffer_never_logs :
  rms boundaryBuffer = 0.01%float /\
  onaudioprocess aliceClosure boundaryBuffer 1700000000000 "10:00:00" =
    (aliceClosure, None).
Proof.
  split; [vm_compute; reflexivity|].
  apply (quiet_buffer_never_logs aliceClosure boundaryBuffer).
  vm_compute; reflexivity.
Defined.

(** As single-precision samples the boundary buffer is below 0.01. *)
Lemma boundary_buffer32_never_logs (c : Closure) (now : Z) (clock : string) :
  (rms boundaryBuffer32 <? threshold)%float = true /\
  onaudioprocess c boundaryBuffer32 now clock = (c, None).
Proof.
  split; [vm_compute; reflexivity|].
  apply onaudioprocess_quiet. vm_compute; reflexivity.
Qed.

(** ** Throttle *)

(** C2, as stated, fails when exactly 500 ms have elapsed: the level is
    above the threshold, 500 ms separate the clock from the last log, and
    nothing is logged. *)
Lemma no_log_at_exactly_500ms :
  ~ (is_Some (onaudioprocess loggedClosure squareWave 1700000000500 "10:00:00").2 <->
     (threshold <? rms squareWave)%float = true /\
     500 <= 1700000000500 - lastLogTime loggedClosure).
Proof.
  intros [_ Hemit].
  assert (is_Some (onaudioprocess loggedClosure squareWave 1700000000500 "10:00:00").2)
    as [record Hrecord].
  { apply Hemit. split; [vm_compute; reflexivity|]. simpl. lia. }
  vm_compute in Hrecord. discriminate.
Qed.

(** C2, amended. A record is logged exactly when the level is above 0.01
    and more than 500 ms separate the clock from the chain's last log; a
    log sets the throttle state to the clock and anything else leaves the
    closure alone; so the logs of any run are more than 500 ms apart, and
    no closed window of one second holds more than two. *)
Theorem log_gate_and_spacing (c : Closure) (dataArray : list float)
    (now : Z) (clock : string) :
  (is_Some (onaudioprocess c dataArray now clock).2 <->
     (threshold <? rms dataArray)%float = true /\
     LOG_INTERVAL < now - lastLogTime c) /\
  (is_Some (onaudioprocess c dataArray now clock).2 ->
     lastLogTime (onaudioprocess c dataArray now clock).1 = now) /\
  ((onaudioprocess c dataArray now clock).2 = None ->
     (onaudioprocess c dataArray now clock).1 = c) /\
  (forall invs,
     spaced LOG_INTERVAL (emissions c invs) /\
     forall t, (inWindow t 1000 (emissions c invs) <= 2)%nat).
Proof.
  split; [|split; [|split]].
  - destruct (onaudioprocess_cases c dataArray now clock)
      as [(Hloud & Hgap & record & ->)|[Hno ->]]; simpl.
    + split; eauto.
    + split; [intros [? [=]]|]. intros [Hloud Hgap].
      exfalso. destruct Hno as [Hno|Hno]; [congruence|lia].
  - destruct (onaudioprocess_cases c dataArray now clock)
      as [(_ & _ & record & ->)|[_ ->]]; [reflexivity|].
    intros [? [=]].
  - destruct (onaudioprocess_cases c dataArray now clock)
      as [(_ & _ & record & ->)|[_ ->]]; [discriminate|reflexivity].
  - intros invs.
    pose proof (spaced_tail _ _ _ (emissions_spaced_from c invs)) as Hs.
    split; [exact Hs|]. intros t.
    apply (spaced_window LOG_INTERVAL t); [unfold LOG_INTERVAL; lia|exact Hs].
Qed.

(** ** Facts about the audio tap manager *)

Section Steps.

Variable h : Host.

Lemma addDebugLog_run message s :
  addDebugLog h message s = (Returned tt, logged h message s).
Proof. reflexivity. Qed.

Lemma wiring_logged message s : wiring (logged h message s) = wiring s.
Proof. reflexivity. Qed.

Lemma hostCall_pass stream call :
  throwsAt h stream <> Some call -> hostCall h stream call = ret tt.
Proof. intros Hne. unfold hostCall. now rewrite decide_False. Qed.

Lemma hostCall_throw stream call :
  throwsAt h stream = Some call -> hostCall h stream call = throw call.
Proof. intros He. unfold hostCall. now rewrite decide_True. Qed.

Lemma buildChain_ok ctx stream sid pname loc s :
  throwsAt h stream = None ->
  buildChain h ctx stream sid pname loc s =
    (Returned tt, attached h ctx sid pname loc s).
Proof.
  intros Hok. unfold buildChain, createMediaStreamSource, createAnalyser,
    createScriptProcessor, connect.
  rewrite !hostCall_pass by (rewrite Hok; discriminate).
  unfold attached. cbn. now rewrite <- !app_assoc.
Qed.

Lemma processAudioStream_ok ctx stream sid pname loc s :
  audioContextRef s = Some ctx ->
  throwsAt h stream = None ->
  processAudioStream h stream sid pname loc s =
    (Returned tt, attached h ctx sid pname loc s).
Proof.
  intros Hctx Hok. unfold processAudioStream, tryCatch.
  now rewrite Hctx, buildChain_ok.
Qed.

Lemma processAudioStream_no_context stream sid pname loc s :
  audioContextRef s = None ->
  processAudioStream h stream sid pname loc s = (Returned tt, s).
Proof. intros Hctx. unfold processAudioStream. now rewrite Hctx. Qed.

(** A throwing host call ends the [try] block before the handler and the
    registry entry are installed; the [catch] block writes to the console. *)
Lemma processAudioStream_throws ctx stream sid pname loc s call :
  audioContextRef s = Some ctx ->
  throwsAt h stream = Some call ->
  exists s',
    processAudioStream h stream sid pname loc s = (Returned tt, s') /\
    audioContextRef s' = audioContextRef s /\
    audioProcessorsRef s' = audioProcessorsRef s /\
    handlers s' = handlers s /\
    closedContexts s' = closedContexts s /\
    debugInfo s' = debugInfo s /\
    console s' = (console s ++ [ConsoleError "Error processing audio:" call])%list /\
    (forall e, e ∈ connections s -> e ∈ connections s').
Proof.
  intros Hctx Hthrow. unfold processAudioStream, tryCatch. rewrite Hctx.
  unfold buildChain, createMediaStreamSource, createAnalyser,
    createScriptProcessor, connect.
  destruct call;
    repeat (first
      [ rewrite (hostCall_throw _ _ Hthrow)
      | rewrite hostCall_pass by (rewrite Hthrow; discriminate) ]);
    cbn; eexists; repeat split; cbn; auto;
    intros e He; rewrite ?elem_of_app; tauto.
Qed.

(** Whether or not there is a context, a call on a throwing host returns
    normally and leaves the context reference and the registry alone. *)
Lemma processAudioStream_fails stream sid pname loc s call :
  throwsAt h stream = Some call ->
  (processAudioStream h stream sid pname loc s).1 = Returned tt /\
  audioContextRef (exec (processAudioStream h stream sid pname loc) s) =
    audioContextRef s /\
  audioProcessorsRef (exec (processAudioStream h stream sid pname loc) s) =
    audioProcessorsRef s.
Proof.
  intros Hthrow. unfold exec.
  destruct (audioContextRef s) as [ctx|] eqn:Hctx.
  - destruct (processAudioStream_throws ctx stream sid pname loc s call
                Hctx Hthrow) as (s' & -> & Hc & Hr & _).
    simpl. rewrite Hc, Hctx. auto.
  - rewrite processAudioStream_no_context by assumption. simpl. auto.
Qed.

End Steps.

Section CheckParticipant.

Variables (h : Host) (p : Participant) (s : State).

Lemma bind_addDebugLog {B} message (k : M B) s0 :
  (addDebugLog h message ;; k) s0 = k (logged h message s0).
Proof. reflexivity. Qed.

Lemma audioProcessorsRef_logged message s0 :
  audioProcessorsRef (logged h message s0) = audioProcessorsRef s0.
Proof. reflexivity. Qed.

Lemma wiring_announced : wiring (announced h p s) = wiring s.
Proof. unfold announced. now rewrite !wiring_logged. Qed.

(** [checkParticipant], its four log lines done. *)
Lemma checkParticipant_unfold :
  checkParticipant h p s =
    match audioStream p with
    | Some stream =>
        match audioProcessorsRef s !! sessionId p with
        | None =>
            processAudioStream h stream (sessionId p) (name p) false
              (logged h ("Setting up audio processing for " +:+ name p)
                 (announced h p s))
        | Some _ => (Returned tt, announced h p s)
        end
    | None =>
        (Returned tt,
         logged h ("No audio available for " +:+ name p) (announced h p s))
    end.
Proof.
  unfold checkParticipant. rewrite !bind_addDebugLog. fold (announced h p s).
  destruct (audioStream p) as [stream|]; [|reflexivity].
  cbv beta.
  replace (audioProcessorsRef (announced h p s)) with (audioProcessorsRef s)
    by (unfold announced; now rewrite !audioProcessorsRef_logged).
  destruct (audioProcessorsRef s !! sessionId p); [reflexivity|].
  now rewrite bind_addDebugLog.
Qed.

Lemma checkParticipant_no_stream :
  audioStream p = None ->
  checkParticipant h p s =
    (Returned tt, logged h ("No audio available for " +:+ name p) (announced h p s)).
Proof. intros Hs. rewrite checkParticipant_unfold. now rewrite Hs. Qed.

Lemma checkParticipant_registered stream :
  audioStream p = Some stream ->
  is_Some (audioProcessorsRef s !! sessionId p) ->
  checkParticipant h p s = (Returned tt, announced h p s).
Proof.
  intros Hs [chain Hc]. rewrite checkParticipant_unfold. now rewrite Hs, Hc.
Qed.

Lemma checkParticipant_new stream :
  audioStream p = Some stream ->
  audioProcessorsRef s !! sessionId p = None ->
  checkParticipant h p s =
    processAudioStream h stream (sessionId p) (name p) false
      (logged h ("Setting up audio processing for " +:+ name p) (announced h p s)).
Proof.
  intros Hs Hc. rewrite checkParticipant_unfold. now rewrite Hs, Hc.
Qed.

(** Checking a participant whose session is registered touches the logs
    only. *)
Lemma checkParticipant_skips :
  is_Some (audioProcessorsRef s !! sessionId p) ->
  (checkParticipant h p s).1 = Returned tt /\
  wiring (exec (checkParticipant h p) s) = wiring s.
Proof.
  intros Hreg. unfold exec. destruct (audioStream p) as [stream|] eqn:Hs.
  - now rewrite (checkParticipant_registered stream Hs Hreg).
  - now rewrite (checkParticipant_no_stream Hs).
Qed.

Lemma checkParticipant_attaches ctx stream :
  audioContextRef s = Some ctx ->
  audioStream p = Some stream ->
  throwsAt h stream = None ->
  audioProcessorsRef s !! sessionId p = None ->
  (checkParticipant h p s).1 = Returned tt /\
  wiring (exec (checkParticipant h p) s) =
    wiring (attached h ctx (sessionId p) (name p) false s).
Proof.
  intros Hctx Hs Hok Hnew. unfold exec.
  rewrite (checkParticipant_new stream Hs Hnew).
  now rewrite (processAudioStream_ok h ctx) by assumption.
Qed.

End CheckParticipant.

Lemma remoteEffect_single h p s :
  remoteEffect h [p] s = checkParticipant h p s.
Proof.
  unfold remoteEffect. cbn [forEach]. unfold bind.
  destruct (checkParticipant h p s) as [[[]|e] s']; reflexivity.
Qed.

(** ** Idempotence of attachment *)

(** C1, as stated, fails for a direct second call of [processAudioStream]:
    the session is registered, yet the call wires three more nodes and
    installs a second handler with a throttle state of its own, while the
    registry keeps one entry. *)
Lemma second_direct_call_rewires :
  is_Some (audioProcessorsRef aliceAttached !! "s-alice") /\
  wiring aliceAttachedTwice <> wiring aliceAttached /\
  length (connections aliceAttached) = 3%nat /\
  length (connections aliceAttachedTwice) = 6%nat /\
  size (handlers aliceAttached) = 1%nat /\
  size (handlers aliceAttachedTwice) = 2%nat /\
  size (audioProcessorsRef aliceAttachedTwice) = 1%nat.
Proof.
  split; [vm_compute; eauto|]. split; [|vm_compute; repeat split].
  intros Heq. apply (f_equal (fun w => length (w.1.2))) in Heq.
  vm_compute in Heq. discriminate.
Qed.

(** C1, amended. Attachment is idempotent through the remote-participant
    effect, which asks the registry before it calls [processAudioStream]: a
    first notification of a participant with a stream builds one chain (one
    registry entry, three connected nodes, one throttle state), and a second
    notification of the same participant changes nothing but the logs. *)
Theorem remote_attach_idempotent (h1 h2 : Host) (p : Participant)
    (stream : MediaStream) (ctx : nat) (s : State) :
  audioContextRef s = Some ctx ->
  audioStream p = Some stream ->
  throwsAt h1 stream = None ->
  audioProcessorsRef s !! sessionId p = None ->
  wiring (exec (remoteEffect h1 [p]) s) =
    wiring (attached h1 ctx (sessionId p) (name p) false s) /\
  wiring (exec (remoteEffect h2 [p]) (exec (remoteEffect h1 [p]) s)) =
    wiring (exec (remoteEffect h1 [p]) s).
Proof.
  intros Hctx Hs Hok Hnew.
  destruct (checkParticipant_attaches h1 p s ctx stream Hctx Hs Hok Hnew)
    as [_ Hfirst].
  assert (exec (remoteEffect h1 [p]) s = exec (checkParticipant h1 p) s) as Hone
    by (unfold exec; now rewrite remoteEffect_single).
  rewrite Hone. split; [exact Hfirst|].
  unfold exec at 1. rewrite remoteEffect_single.
  apply checkParticipant_skips.
  apply (f_equal (fun w => w.1.1.1.1.2 !! sessionId p)) in Hfirst.
  cbn in Hfirst. rewrite Hfirst, lookup_insert_eq. eauto.
Qed.

Lemma remote_attach_idempotent_alice :
  wiring (exec (remoteEffect okHost [alice]) mountedAlone) =
    wiring (attached okHost 0%nat "s-alice" "Alice" false mountedAlone) /\
  wiring (exec (remoteEffect okHost [alice])
            (exec (remoteEffect okHost [alice]) mountedAlone)) =
    wiring (exec (remoteEffect okHost [alice]) mountedAlone).
Proof.
  apply (remote_attach_idempotent okHost okHost alice 1%nat 0%nat mountedAlone);
    reflexivity.
Defined.

(** ** Failure of chain construction *)

(** C5. When a host call throws while the chain is built, the call of
    [processAudioStream] returns normally and the registry is as it was, so
    an unregistered session stays unregistered; and a later notification of
    the participant, on a host that no longer throws, attaches it. *)
Theorem failed_attach_not_registered (h : Host) (stream : MediaStream)
    (sid pname : string) (loc : bool) (s : State) (call : HostCall) :
  throwsAt h stream = Some call ->
  (processAudioStream h stream sid pname loc s).1 = Returned tt /\
  audioProcessorsRef (exec (processAudioStream h stream sid pname loc) s) =
    audioProcessorsRef s /\
  (audioProcessorsRef s !! sid = None ->
   audioProcessorsRef (exec (processAudioStream h stream sid pname loc) s) !! sid
     = None) /\
  (forall h' p ctx,
     audioContextRef s = Some ctx ->
     audioStream p = Some stream ->
     sessionId p = sid ->
     audioProcessorsRef s !! sid = None ->
     throwsAt h' stream = None ->
     audioProcessorsRef (exec (remoteEffect h [p]) s) !! sid = None /\
     is_Some (audioProcessorsRef
                (exec (remoteEffect h' [p]) (exec (remoteEffect h [p]) s)) !! sid)).
Proof.
  intros Hthrow.
  destruct (processAudioStream_fails h stream sid pname loc s call Hthrow)
    as (Hret & _ & Hreg).
  split; [exact Hret|]. split; [exact Hreg|]. split; [now rewrite Hreg|].
  intros h' p ctx Hctx Hs <- Hnew Hok.
  assert (exec (remoteEffect h [p]) s =
          exec (processAudioStream h stream (sessionId p) (name p) false)
            (logged h ("Setting up audio processing for " +:+ name p)
               (announced h p s))) as Hfirst.
  { unfold exec. now rewrite remoteEffect_single,
      (checkParticipant_new h p s stream Hs Hnew). }
  destruct (processAudioStream_fails h stream (sessionId p) (name p) false
              (logged h ("Setting up audio processing for " +:+ name p)
                 (announced h p s)) call Hthrow) as (_ & Hctx1 & Hreg1).
  rewrite <- Hfirst in Hctx1, Hreg1.
  split; [rewrite Hreg1; exact Hnew|].
  destruct (checkParticipant_attaches h' p (exec (remoteEffect h [p]) s) ctx stream)
    as [_ Hsecond]; try assumption.
  - rewrite Hctx1. exact Hctx.
  - rewrite Hreg1. exact Hnew.
  - apply (f_equal (fun w => w.1.1.1.1.2 !! sessionId p)) in Hsecond.
    cbn [wiring fst snd attached audioProcessorsRef] in Hsecond.
    rewrite lookup_insert_eq in Hsecond.
    unfold exec at 1. rewrite remoteEffect_single.
    unfold exec in Hsecond at 1. rewrite Hsecond. eauto.
Qed.

Lemma failed_attach_not_registered_bob :
  (processAudioStream badHost 2%nat "s-bob" "Bob" false mountedAlone).1 = Returned tt /\
  audioProcessorsRef bobFailed = audioProcessorsRef mountedAlone /\
  audioProcessorsRef bobFailed !! "s-bob" = None /\
  audioProcessorsRef (exec (remoteEffect badHost [bob]) mountedAlone) !! "s-bob" = None /\
  is_Some (audioProcessorsRef
             (exec (remoteEffect okHost [bob])
                (exec (remoteEffect badHost [bob]) mountedAlone)) !! "s-bob").
Proof.
  destruct (failed_attach_not_registered badHost 2%nat "s-bob" "Bob" false
              mountedAlone ConnectProcessorToDestination eq_refl)
    as (Hret & Hreg & Habsent & Hretry).
  destruct (Hretry okHost bob 0%nat eq_refl eq_refl eq_refl eq_refl eq_refl)
    as [Hfirst Hsecond].
  split; [exact Hret|]. split; [exact Hreg|]. split; [exact (Habsent eq_refl)|].
  split; [exact Hfirst|exact Hsecond].
Defined.

(** C6, as stated, fails: Bob's attachment throws and is caught, the error
    goes to the console, and the on-screen debug log is what it was. *)
Lemma failure_not_in_debug_log :
  (processAudioStream badHost 2%nat "s-bob" "Bob" false mountedAlone).1 = Returned tt /\
  last (console bobFailed) =
    Some (ConsoleError "Error processing audio:" ConnectProcessorToDestination) /\
  debugInfo bobFailed = ["10:00:00: AudioContext created"] /\
  ~ (exists entry, entry ∈ debugInfo bobFailed /\ entry ∉ debugInfo mountedAlone).
Proof.
  split; [reflexivity|]. split; [reflexivity|]. split; [reflexivity|].
  intros (entry & Hin & Hout). apply Hout. exact Hin.
Qed.

(** C6, amended. When chain construction fails, the failure is written to
    the console with [console.error] and nowhere else: the on-screen debug
    log is unchanged by the call. *)
Theorem failure_goes_to_console (h : Host) (stream : MediaStream)
    (sid pname : string) (loc : bool) (s : State) (ctx : nat) (call : HostCall) :
  audioContextRef s = Some ctx ->
  throwsAt h stream = Some call ->
  debugInfo (exec (processAudioStream h stream sid pname loc) s) = debugInfo s /\
  console (exec (processAudioStream h stream sid pname loc) s) =
    (console s ++ [ConsoleError "Error processing audio:" call])%list.
Proof.
  intros Hctx Hthrow. unfold exec.
  destruct (processAudioStream_throws h ctx stream sid pname loc s call Hctx Hthrow)
    as (s' & -> & _ & _ & _ & _ & Hdebug & Hconsole & _).
  now split.
Qed.

Lemma failure_goes_to_console_bob :
  debugInfo bobFailed = debugInfo mountedAlone /\
  console bobFailed =
    (console mountedAlone ++
     [ConsoleError "Error processing audio:" ConnectProcessorToDestination])%list.
Proof.
  apply (failure_goes_to_console badHost 2%nat "s-bob" "Bob" false mountedAlone
           0%nat ConnectProcessorToDestination); reflexivity.
Defined.

(** ** The debug log *)

Lemma sliceLast_length {A} (n : nat) (l : list A) :
  length (sliceLast n l) = Nat.min n (length l).
Proof. unfold sliceLast. rewrite length_drop. lia. Qed.

(** What [addDebugLog] leaves in [debugInfo]: the last 20 earlier entries,
    oldest dropped first, and the new one, so up to 21 entries. *)
Lemma addDebugLog_debugInfo h message s :
  debugInfo (exec (addDebugLog h message) s) =
    (sliceLast 20 (debugInfo s) ++ [toLocaleTimeString h +:+ ": " +:+ message])%list /\
  length (debugInfo (exec (addDebugLog h message) s)) =
    S (Nat.min 20 (length (debugInfo s))).
Proof.
  assert (debugInfo (exec (addDebugLog h message) s) =
          (sliceLast 20 (debugInfo s) ++
           [toLocaleTimeString h +:+ ": " +:+ message])%list) as Hlog
    by reflexivity.
  split; [exact Hlog|].
  rewrite Hlog, length_app, sliceLast_length. simpl. lia.
Qed.

(** C7 fails on the code: after Alice, Bob and Carol were announced and the
    local participant changed, a state the component reaches, the debug log
    holds 21 entries, and the next message leaves 21 again. *)
Theorem debug_log_holds_21 :
  reachable remounted /\
  length (debugInfo remounted) = 21%nat /\
  length (debugInfo (exec (addDebugLog okHost "one more") remounted)) = 21%nat.
Proof.
  split; [|split; vm_compute; reflexivity].
  unfold remounted, threeRemote, mountedWithAlice.
  apply reachable_handle, reachable_handle, reachable_mount.
Qed.

(** ** The remote-participant effect *)

Section Scan.

Variable h : Host.

Lemma checkParticipant_returns p s : (checkParticipant h p s).1 = Returned tt.
Proof.
  destruct (audioStream p) as [stream|] eqn:Hs.
  - destruct (audioProcessorsRef s !! sessionId p) as [chain|] eqn:Hreg.
    + now rewrite (checkParticipant_registered h p s stream Hs (mk_is_Some _ _ Hreg)).
    + rewrite (checkParticipant_new h p s stream Hs Hreg).
      destruct (throwsAt h stream) as [call|] eqn:Hthrow.
      * now apply (processAudioStream_fails h stream _ _ _ _ call).
      * destruct (audioContextRef s) as [ctx|] eqn:Hctx.
        -- now rewrite (processAudioStream_ok h ctx).
        -- now rewrite processAudioStream_no_context.
  - now rewrite (checkParticipant_no_stream h p s Hs).
Qed.

Lemma remoteEffect_cons p l s :
  remoteEffect h (p :: l) s = remoteEffect h l (exec (checkParticipant h p) s).
Proof.
  unfold remoteEffect, exec. cbn [forEach]. unfold bind.
  pose proof (checkParticipant_returns p s) as Hret.
  destruct (checkParticipant h p s) as [[[]|e] s']; [reflexivity|discriminate].
Qed.

Lemma exec_remoteEffect_cons p l s :
  exec (remoteEffect h (p :: l)) s =
  exec (remoteEffect h l) (exec (checkParticipant h p) s).
Proof. unfold exec at 1 2. now rewrite remoteEffect_cons. Qed.

Lemma remoteEffect_returns l s : (remoteEffect h l s).1 = Returned tt.
Proof.
  revert s. induction l as [|p l IH]; intros s; [reflexivity|].
  rewrite remoteEffect_cons. apply IH.
Qed.

(** One step of the scan on a host that does not throw: the context stays,
    a session with a stream is registered afterwards, and the entries that
    were there are untouched. *)
Lemma checkParticipant_scan p s ctx :
  audioContextRef s = Some ctx ->
  (forall stream, audioStream p = Some stream -> throwsAt h stream = None) ->
  audioContextRef (exec (checkParticipant h p) s) = Some ctx /\
  dom (audioProcessorsRef (exec (checkParticipant h p) s)) =
    dom (audioProcessorsRef s) ∪ streaming [p] /\
  (forall sid, is_Some (audioProcessorsRef s !! sid) ->
     audioProcessorsRef (exec (checkParticipant h p) s) !! sid =
       audioProcessorsRef s !! sid).
Proof.
  intros Hctx Hok. unfold streaming.
  destruct (audioStream p) as [stream|] eqn:Hs.
  - rewrite filter_cons_True by (rewrite Hs; eauto). cbn [filter fmap list_fmap list_to_set].
    destruct (audioProcessorsRef s !! sessionId p) as [chain|] eqn:Hreg.
    + destruct (checkParticipant_skips h p s (mk_is_Some _ _ Hreg)) as [_ Hw].
      injection Hw as Hc Hr _ _ _ _. rewrite Hc, Hr. repeat split; trivial.
      apply elem_of_dom_2 in Hreg. set_solver.
    + destruct (checkParticipant_attaches h p s ctx stream Hctx Hs (Hok _ eq_refl) Hreg)
        as [_ Hw].
      injection Hw as Hc Hr _ _ _ _. rewrite Hc, Hr. cbn.
      repeat split; trivial.
      * rewrite dom_insert_L. set_solver.
      * intros sid [c Hsid]. rewrite lookup_insert_ne; [reflexivity|congruence].
  - rewrite filter_cons_False by (rewrite Hs; intros [? [=]]).
    unfold exec. rewrite (checkParticipant_no_stream h p s Hs). cbn.
    repeat split; trivial. set_solver.
Qed.

(** The scan of a whole list on a host that does not throw. *)
Lemma remoteEffect_scan l s ctx :
  audioContextRef s = Some ctx ->
  (forall p stream, p ∈ l -> audioStream p = Some stream -> throwsAt h stream = None) ->
  audioContextRef (exec (remoteEffect h l) s) = Some ctx /\
  dom (audioProcessorsRef (exec (remoteEffect h l) s)) =
    dom (audioProcessorsRef s) ∪ streaming l /\
  (forall sid, is_Some (audioProcessorsRef s !! sid) ->
     audioProcessorsRef (exec (remoteEffect h l) s) !! sid =
       audioProcessorsRef s !! sid).
Proof.
  revert s. induction l as [|p l IH]; intros s Hctx Hok.
  - cbn. repeat split; trivial. unfold streaming. cbn. set_solver.
  - rewrite exec_remoteEffect_cons.
    destruct (checkParticipant_scan p s ctx Hctx) as (Hctx1 & Hdom1 & Hold1).
    { intros stream. apply Hok. left. }
    destruct (IH (exec (checkParticipant h p) s) Hctx1) as (Hctx2 & Hdom2 & Hold2).
    { intros q stream Hq. apply Hok. now right. }
    split; [exact Hctx2|]. split.
    + rewrite Hdom2, Hdom1. unfold streaming.
      destruct (decide (is_Some (audioStream p))) as [Hp|Hp].
      * rewrite !filter_cons_True by exact Hp. cbn. set_solver.
      * rewrite !filter_cons_False by exact Hp. cbn. set_solver.
    + intros sid Hsid. rewrite Hold2; [now apply Hold1|].
      rewrite Hold1 by exact Hsid. exact Hsid.
Qed.

End Scan.

Lemma wiring_attached h ctx sid pname loc s1 s2 :
  wiring s1 = wiring s2 ->
  wiring (attached h ctx sid pname loc s1) = wiring (attached h ctx sid pname loc s2).
Proof.
  intros Hw. injection Hw as Hc Hr Hn Hcl Hco Hh.
  unfold wiring, attached. cbn. now rewrite Hc, Hr, Hn, Hcl, Hco, Hh.
Qed.

(** C9. A notification with one registered and one new participant, both
    with a stream, attaches exactly the new one: the effect returns
    normally and the registry and the graph are those of a single
    attachment of the new participant, the entry of the registered one
    untouched. A participant without a stream only adds log lines. And for
    any list, on a host that does not throw, the sessions registered
    afterwards are the earlier ones and those of the list with a stream,
    the earlier entries untouched. *)
Theorem remote_scan_attaches_only_new (h : Host) (pa pb : Participant)
    (sa sb : MediaStream) (ctx : nat) (s : State) :
  audioContextRef s = Some ctx ->
  audioStream pa = Some sa ->
  audioStream pb = Some sb ->
  is_Some (audioProcessorsRef s !! sessionId pa) ->
  audioProcessorsRef s !! sessionId pb = None ->
  throwsAt h sb = None ->
  (remoteEffect h [pa; pb] s).1 = Returned tt /\
  wiring (exec (remoteEffect h [pa; pb]) s) =
    wiring (attached h ctx (sessionId pb) (name pb) false s) /\
  audioProcessorsRef (exec (remoteEffect h [pa; pb]) s) !! sessionId pa =
    audioProcessorsRef s !! sessionId pa /\
  (forall pc, audioStream pc = None ->
     remoteEffect h [pc] s =
       (Returned tt,
        logged h ("No audio available for " +:+ name pc) (announced h pc s))) /\
  (forall l,
     (forall p stream, p ∈ l -> audioStream p = Some stream ->
        throwsAt h stream = None) ->
     dom (audioProcessorsRef (exec (remoteEffect h l) s)) =
       dom (audioProcessorsRef s) ∪ streaming l /\
     forall sid, is_Some (audioProcessorsRef s !! sid) ->
       audioProcessorsRef (exec (remoteEffect h l) s) !! sid =
         audioProcessorsRef s !! sid).
Proof.
  intros Hctx Hsa Hsb Hrega Hnewb Hok.
  destruct (checkParticipant_skips h pa s Hrega) as [_ Hw1].
  assert (audioContextRef (exec (checkParticipant h pa) s) = Some ctx) as Hctx1
    by (injection Hw1 as -> _ _ _ _ _; exact Hctx).
  assert (audioProcessorsRef (exec (checkParticipant h pa) s) !! sessionId pb = None)
    as Hnew1 by (injection Hw1 as _ -> _ _ _ _; exact Hnewb).
  destruct (checkParticipant_attaches h pb _ ctx sb Hctx1 Hsb Hok Hnew1) as [_ Hw2].
  assert (wiring (exec (remoteEffect h [pa; pb]) s) =
          wiring (attached h ctx (sessionId pb) (name pb) false s)) as Hw.
  { rewrite exec_remoteEffect_cons.
    assert (exec (remoteEffect h [pb]) (exec (checkParticipant h pa) s) =
            exec (checkParticipant h pb) (exec (checkParticipant h pa) s)) as ->
      by (unfold exec at 1 3; now rewrite remoteEffect_single).
    rewrite Hw2. now apply wiring_attached. }
  split; [apply remoteEffect_returns|]. split; [exact Hw|]. split; [|split].
  - apply (f_equal (fun w => w.1.1.1.1.2 !! sessionId pa)) in Hw.
    cbn [wiring fst snd attached audioProcessorsRef] in Hw. rewrite Hw.
    apply lookup_insert_ne. intros Heq. rewrite <- Heq, Hnewb in Hrega.
    now destruct Hrega.
  - intros pc Hsc. rewrite remoteEffect_single.
    now apply checkParticipant_no_stream.
  - intros l Hl. now destruct (remoteEffect_scan h l s ctx Hctx Hl) as (_ & ? & ?).
Qed.

Lemma remote_scan_alice_bob :
  (remoteEffect okHost [alice; bob] mountedWithAlice).1 = Returned tt /\
  wiring (exec (remoteEffect okHost [alice; bob]) mountedWithAlice) =
    wiring (attached okHost 0%nat "s-bob" "Bob" false mountedWithAlice) /\
  audioProcessorsRef (exec (remoteEffect okHost [alice; bob]) mountedWithAlice)
    !! "s-alice" = Some (mkChain 1 3 2) /\
  remoteEffect okHost [carol] mountedWithAlice =
    (Returned tt,
     logged okHost "No audio available for Carol" (announced okHost carol mountedWithAlice)).
Proof.
  destruct (remote_scan_attaches_only_new okHost alice bob 1%nat 2%nat 0%nat
              mountedWithAlice eq_refl eq_refl eq_refl
              (mk_is_Some _ (mkChain 1 3 2) eq_refl) eq_refl eq_refl)
    as (Hret & Hw & Hold & Hskip & _).
  split; [exact Hret|]. split; [exact Hw|]. split; [exact Hold|].
  exact (Hskip carol eq_refl).
Defined.

(** ** Teardown *)

Lemma exec_bind {A B} (m : M A) (k : A -> M B) s a :
  (m s).1 = Returned a -> exec (bind m k) s = exec (k a) (exec m s).
Proof.
  unfold exec, bind. destruct (m s) as [[a'|e] s']; simpl; [|discriminate].
  now intros [= ->].
Qed.

Lemma setConnections_same s : setConnections (connections s) s = s.
Proof. now destruct s. Qed.

Lemma detach_loop_run entries s :
  forEach
    (fun entry : string * Chain =>
       disconnect (MediaStreamAudioSourceNode (sourceNode entry.2)) ;;
       disconnect (ScriptProcessorNode (processorNode entry.2)))
    entries s =
  (Returned tt, setConnections (detachAll entries (connections s)) s).
Proof.
  revert s. induction entries as [|entry entries IH]; intros s.
  - cbn. now rewrite setConnections_same.
  - cbn [forEach]. unfold bind at 1. cbn. now rewrite IH.
Qed.

Lemma cleanupEffect_run h s : cleanupEffect h s = (Returned tt, tornDown h s).
Proof.
  unfold cleanupEffect, closeAudioContext, bind at 1. cbn.
  unfold bind at 1. rewrite detach_loop_run. unfold tornDown.
  destruct (audioContextRef s); reflexivity.
Qed.

Lemma detachAll_elem entries es e :
  e ∈ detachAll entries es <->
  e ∈ es /\
  forall entry, entry ∈ entries ->
    e.1 ≠ MediaStreamAudioSourceNode (sourceNode entry.2) /\
    e.1 ≠ ScriptProcessorNode (processorNode entry.2).
Proof.
  revert es. induction entries as [|entry entries IH]; intros es.
  - cbn. split; [intros He; split; [exact He|]|tauto].
    intros entry Hentry. inversion Hentry.
  - cbn [detachAll fold_left]. fold (detachAll entries). rewrite IH.
    rewrite !list_elem_of_filter. split.
    + intros [(Hp & Hs & He) Hrest]. split; [exact He|].
      intros entry' [->|Hin]%elem_of_cons; [now split|now apply Hrest].
    + intros [He Hall]. destruct (Hall entry) as [Hs Hp]; [left|].
      split; [split; [exact Hp|split; [exact Hs|exact He]]|].
      intros entry' Hin. apply Hall. now right.
Qed.

(** The invariants speak of the registry and the graph only. *)
Lemma consistent_wiring s1 s2 :
  wiring s1 = wiring s2 -> consistent s1 -> consistent s2.
Proof.
  intros Hw [Htr Hwi]. injection Hw as Hc Hr _ Hcl Hco Hh.
  unfold consistent, handlersTracked, chainsWired in *.
  rewrite <- Hc, <- Hr, <- Hcl, <- Hco, <- Hh. now split.
Qed.

Section Invariants.

Variable h : Host.

Lemma consistent_logged message s : consistent s -> consistent (logged h message s).
Proof. apply consistent_wiring. symmetry. apply wiring_logged. Qed.

Lemma consistent_announced p s : consistent s -> consistent (announced h p s).
Proof. apply consistent_wiring. symmetry. apply wiring_announced. Qed.

Lemma consistent_attached ctx sid pname loc s :
  audioContextRef s = Some ctx ->
  consistent s -> consistent (attached h ctx sid pname loc s).
Proof.
  intros Hctx [Htr Hwi]. split.
  - intros node ctx' c. unfold attached. cbn. rewrite lookup_insert.
    case_decide; [intros [= <- _]; now right|apply Htr].
  - intros sid' chain. unfold attached. cbn. rewrite lookup_insert.
    case_decide.
    + intros [= <-]. cbn. rewrite lookup_insert_eq. split; [|eauto].
      rewrite elem_of_app. right. right. left.
    + intros Hchain. destruct (Hwi sid' chain Hchain) as [Hedge Hhandler].
      split; [rewrite elem_of_app; now left|].
      rewrite lookup_insert. case_decide; eauto.
Qed.

Lemma processAudioStream_consistent stream sid pname loc s :
  consistent s -> consistent (exec (processAudioStream h stream sid pname loc) s).
Proof.
  intros Hs. unfold exec.
  destruct (audioContextRef s) as [ctx|] eqn:Hctx;
    [|now rewrite processAudioStream_no_context].
  destruct (throwsAt h stream) as [call|] eqn:Hthrow.
  - destruct (processAudioStream_throws h ctx stream sid pname loc s call
                Hctx Hthrow) as (s' & -> & Hc & Hr & Hh & Hcl & _ & _ & Hco).
    cbn [snd]. destruct Hs as [Htr Hwi]. split.
    + intros node ctx' c. rewrite Hh, Hcl, Hc. apply Htr.
    + intros sid' chain. rewrite Hr, Hh. intros Hchain.
      destruct (Hwi sid' chain Hchain) as [Hedge Hhandler]. auto.
  - rewrite (processAudioStream_ok h ctx) by assumption. cbn [snd].
    now apply consistent_attached.
Qed.

Lemma exec_checkParticipant p s :
  exec (checkParticipant h p) s =
    match audioStream p with
    | Some stream =>
        match audioProcessorsRef s !! sessionId p with
        | None =>
            exec (processAudioStream h stream (sessionId p) (name p) false)
              (logged h ("Setting up audio processing for " +:+ name p)
                 (announced h p s))
        | Some _ => announced h p s
        end
    | None => logged h ("No audio available for " +:+ name p) (announced h p s)
    end.
Proof.
  unfold exec. rewrite checkParticipant_unfold.
  destruct (audioStream p); [|reflexivity].
  now destruct (audioProcessorsRef s !! sessionId p).
Qed.

Lemma checkParticipant_consistent p s :
  consistent s -> consistent (exec (checkParticipant h p) s).
Proof.
  intros Hs. rewrite exec_checkParticipant.
  destruct (audioStream p) as [stream|].
  - destruct (audioProcessorsRef s !! sessionId p) as [chain|].
    + now apply consistent_announced.
    + now apply processAudioStream_consistent, consistent_logged,
        consistent_announced.
  - now apply consistent_logged, consistent_announced.
Qed.

Lemma remoteEffect_consistent l s :
  consistent s -> consistent (exec (remoteEffect h l) s).
Proof.
  revert s. induction l as [|p l IH]; intros s Hs; [exact Hs|].
  rewrite exec_remoteEffect_cons. now apply IH, checkParticipant_consistent.
Qed.

(** [setupEffect], the context created and its line logged. *)
Lemma setupEffect_unfold lp s :
  setupEffect h lp s =
    match lp with
    | Some lp =>
        match audioStream lp with
        | Some stream =>
            processAudioStream h stream (sessionId lp) "Local User" true
              (logged h "Local participant audio detected"
                 (logged h "AudioContext created"
                    (setAudioContextRef (Some (nextId s))
                       (setNextId (S (nextId s)) s))))
        | None =>
            (Returned tt,
             logged h "AudioContext created"
               (setAudioContextRef (Some (nextId s)) (setNextId (S (nextId s)) s)))
        end
    | None =>
        (Returned tt,
         logged h "AudioContext created"
           (setAudioContextRef (Some (nextId s)) (setNextId (S (nextId s)) s)))
    end.
Proof.
  unfold setupEffect.
  destruct lp as [lp|]; [destruct (audioStream lp) as [stream|]|]; reflexivity.
Qed.

Lemma exec_setupEffect lp s :
  exec (setupEffect h lp) s =
    match lp with
    | Some lp =>
        match audioStream lp with
        | Some stream =>
            exec (processAudioStream h stream (sessionId lp) "Local User" true)
              (logged h "Local participant audio detected"
                 (logged h "AudioContext created"
                    (setAudioContextRef (Some (nextId s))
                       (setNextId (S (nextId s)) s))))
        | None =>
            logged h "AudioContext created"
              (setAudioContextRef (Some (nextId s)) (setNextId (S (nextId s)) s))
        end
    | None =>
        logged h "AudioContext created"
          (setAudioContextRef (Some (nextId s)) (setNextId (S (nextId s)) s))
    end.
Proof.
  unfold exec. rewrite setupEffect_unfold.
  destruct lp as [lp|]; [destruct (audioStream lp) as [stream|]|]; reflexivity.
Qed.

Lemma processAudioStream_returns stream sid pname loc s :
  (processAudioStream h stream sid pname loc s).1 = Returned tt.
Proof.
  destruct (throwsAt h stream) as [call|] eqn:Hthrow.
  - now apply (processAudioStream_fails h stream _ _ _ _ call).
  - destruct (audioContextRef s) as [ctx|] eqn:Hctx.
    + now rewrite (processAudioStream_ok h ctx).
    + now rewrite processAudioStream_no_context.
Qed.

Lemma setupEffect_returns lp s : (setupEffect h lp s).1 = Returned tt.
Proof.
  rewrite setupEffect_unfold.
  destruct lp as [lp|]; [|reflexivity].
  destruct (audioStream lp) as [stream|]; [|reflexivity].
  apply processAudioStream_returns.
Qed.

Lemma newAudioContext_consistent s :
  handlersClosed s -> chainsWired s ->
  consistent (setAudioContextRef (Some (nextId s)) (setNextId (S (nextId s)) s)).
Proof.
  intros Hcl Hwi. split; [|exact Hwi].
  intros node ctx c Hnode. left. exact (Hcl node ctx c Hnode).
Qed.

Lemma setupEffect_consistent lp s :
  handlersClosed s -> chainsWired s -> consistent (exec (setupEffect h lp) s).
Proof.
  intros Hcl Hwi. pose proof (newAudioContext_consistent s Hcl Hwi) as Hnew.
  rewrite exec_setupEffect.
  destruct lp as [lp|]; [|now apply consistent_logged].
  destruct (audioStream lp) as [stream|]; [|now apply consistent_logged].
  now apply processAudioStream_consistent, consistent_logged, consistent_logged.
Qed.

Lemma exec_cleanupEffect s : exec (cleanupEffect h) s = tornDown h s.
Proof. unfold exec. now rewrite cleanupEffect_run. Qed.

Lemma tornDown_closed s :
  handlersTracked s -> handlersClosed (tornDown h s) /\ chainsWired (tornDown h s).
Proof.
  intros Htr. split.
  - intros node ctx c. unfold tornDown. cbn.
    destruct (audioContextRef s) as [ctx0|] eqn:Hctx; cbn; intros Hnode;
      destruct (Htr node ctx c Hnode) as [Hin|Heq];
      try rewrite Hctx in Heq; try injection Heq as ->; try discriminate;
      set_solver.
  - intros sid chain. unfold tornDown. cbn. now rewrite lookup_empty.
Qed.

Lemma audioprocess_consistent node i s :
  consistent s -> consistent (exec (audioprocess node i) s).
Proof.
  intros [Htr Hwi]. unfold exec, audioprocess.
  destruct (handlers s !! node) as [[ctx c]|] eqn:Hnode; [|now split].
  case_bool_decide; [|now split]. cbn. split.
  - intros node' ctx' c'. cbn. rewrite lookup_insert.
    case_decide; [intros [= <- _]; exact (Htr node ctx c Hnode)|apply Htr].
  - intros sid chain Hchain. destruct (Hwi sid chain Hchain) as [Hedge Hhandler].
    split; [exact Hedge|]. cbn. rewrite lookup_insert. case_decide; eauto.
Qed.

End Invariants.

Lemma reachable_consistent s : reachable s -> consistent s.
Proof.
  induction 1 as [h lp rps|h e s _ IH].
  - unfold mount. rewrite (exec_bind _ _ _ tt) by apply setupEffect_returns.
    apply remoteEffect_consistent, setupEffect_consistent.
    + intros node ctx c. cbn. now rewrite lookup_empty.
    + intros sid chain. cbn. now rewrite lookup_empty.
  - destruct e as [lp|rps|node i]; cbn [handle].
    + rewrite (exec_bind _ _ _ tt) by now rewrite cleanupEffect_run.
      rewrite exec_cleanupEffect.
      destruct (tornDown_closed h s (proj1 IH)) as [Hcl Hwi].
      now apply setupEffect_consistent.
    + now apply remoteEffect_consistent.
    + now apply audioprocess_consistent.
Qed.

Section TornDown.

Variables (h : Host) (s : State).

Lemma audioProcessorsRef_tornDown : audioProcessorsRef (tornDown h s) = ∅.
Proof. reflexivity. Qed.

Lemma handlers_tornDown : handlers (tornDown h s) = handlers s.
Proof. unfold tornDown. now destruct (audioContextRef s). Qed.

Lemma connections_tornDown :
  connections (tornDown h s) =
    detachAll (map_to_list (audioProcessorsRef s)) (connections s).
Proof. unfold tornDown. now destruct (audioContextRef s). Qed.

Lemma fires_tornDown node : handlersTracked s -> fires (tornDown h s) node = false.
Proof.
  intros Htr. destruct (tornDown_closed h s Htr) as [Hcl _].
  unfold fires. destruct (handlers (tornDown h s) !! node) as [[ctx c]|] eqn:Hnode;
    [|reflexivity].
  apply bool_decide_eq_false. intros Hopen. exact (Hopen (Hcl node ctx c Hnode)).
Qed.

Lemma audioprocess_silent node i st :
  fires st node = false -> audioprocess node i st = (Returned tt, st).
Proof.
  unfold fires, audioprocess.
  destruct (handlers st !! node) as [[ctx c]|]; [|reflexivity].
  now intros ->.
Qed.

End TornDown.

(** C8. After the teardown of a state the component can reach, the
    registry is empty; no script processor node is served any more, so no
    delivery runs a callback or changes anything; nothing leaves the source
    node or the processor node of a chain that was registered; and the
    connection from its analyser to its processor, which the teardown does
    not touch, is still there. *)
Theorem teardown_complete (h : Host) (s : State) :
  reachable s ->
  audioProcessorsRef (exec (cleanupEffect h) s) = ∅ /\
  (forall node, fires (exec (cleanupEffect h) s) node = false) /\
  (forall node i,
     audioprocess node i (exec (cleanupEffect h) s) =
       (Returned tt, exec (cleanupEffect h) s)) /\
  (forall sid chain,
     audioProcessorsRef s !! sid = Some chain ->
     (forall target,
        (MediaStreamAudioSourceNode (sourceNode chain), target)
          ∉ connections (exec (cleanupEffect h) s)) /\
     (forall target,
        (ScriptProcessorNode (processorNode chain), target)
          ∉ connections (exec (cleanupEffect h) s)) /\
     (AnalyserNode (analyserNode chain), ScriptProcessorNode (processorNode chain))
       ∈ connections (exec (cleanupEffect h) s)).
Proof.
  intros Hreach. destruct (reachable_consistent s Hreach) as [Htr Hwi].
  rewrite exec_cleanupEffect.
  split; [apply audioProcessorsRef_tornDown|].
  split; [intros node; now apply fires_tornDown|].
  split; [intros node i; now apply audioprocess_silent, fires_tornDown|].
  intros sid chain Hchain. rewrite connections_tornDown.
  assert ((sid, chain) ∈ map_to_list (audioProcessorsRef s)) as Hentry
    by now apply elem_of_map_to_list.
  split; [|split].
  - intros target [_ Hall]%detachAll_elem.
    now destruct (Hall (sid, chain) Hentry) as [Hsrc _].
  - intros target [_ Hall]%detachAll_elem.
    now destruct (Hall (sid, chain) Hentry) as [_ Hproc].
  - apply detachAll_elem. split; [apply (Hwi sid chain Hchain)|].
    intros entry _. split; discriminate.
Qed.

Lemma teardown_complete_three :
  fires threeRemote 3%nat = true /\
  audioProcessorsRef (exec (cleanupEffect okHost) threeRemote) = ∅ /\
  fires (exec (cleanupEffect okHost) threeRemote) 3%nat = false /\
  (AnalyserNode 2, ScriptProcessorNode 3)
    ∈ connections (exec (cleanupEffect okHost) threeRemote) /\
  connections (exec (cleanupEffect okHost) threeRemote) =
    [(AnalyserNode 2, ScriptProcessorNode 3); (AnalyserNode 5, ScriptProcessorNode 6)].
Proof.
  assert (reachable threeRemote) as Hreach
    by (unfold threeRemote, mountedWithAlice;
        apply reachable_handle, reachable_mount).
  destruct (teardown_complete okHost threeRemote Hreach)
    as (Hempty & Hfires & _ & Hchains).
  destruct (Hchains "s-alice" (mkChain 1 3 2) eq_refl) as (_ & _ & Hedge).
  split; [reflexivity|]. split; [exact Hempty|]. split; [apply Hfires|].
  split; [exact Hedge|reflexivity].
Defined.

(** ** The first log of a chain *)

Section FirstLog.

Lemma audioprocess_returns node i s : (audioprocess node i s).1 = Returned tt.
Proof.
  unfold audioprocess. destruct (handlers s !! node) as [[ctx c]|]; [|reflexivity].
  now case_bool_decide.
Qed.

Lemma exec_deliveries_cons node i invs s :
  exec (forEach (audioprocess node) (i :: invs)) s =
    exec (forEach (audioprocess node) invs) (exec (audioprocess node i) s).
Proof.
  cbn [forEach]. now rewrite (exec_bind _ _ _ tt) by apply audioprocess_returns.
Qed.

(** A delivery below the threshold changes nothing at all. *)
Lemma audioprocess_quiet node ctx c q s :
  handlers s !! node = Some (ctx, c) ->
  (threshold <? rms (samples q))%float = false ->
  exec (audioprocess node q) s = s.
Proof.
  intros Hnode Hq. unfold exec, audioprocess. rewrite Hnode.
  case_bool_decide; [|reflexivity].
  unfold invoke. rewrite onaudioprocess_quiet by exact Hq.
  destruct s; cbn in *. now rewrite app_nil_r, insert_id.
Qed.

Lemma audioprocess_loud node ctx c i s :
  handlers s !! node = Some (ctx, c) ->
  ctx ∉ closedContexts s ->
  (threshold <? rms (samples i))%float = true ->
  LOG_INTERVAL < dateNow i - lastLogTime c ->
  console (exec (audioprocess node i) s) =
    (console s ++
     [ConsoleLogAudio
        (mkAudioLog (if isLocal c then "Local Audio" else "Remote Audio")
           (participantName c) (closureSessionId c) (rms (samples i))
           (localeTime i))])%list.
Proof.
  intros Hnode Hopen Hloud Hgap. unfold exec, audioprocess. rewrite Hnode.
  rewrite bool_decide_eq_true_2 by exact Hopen.
  unfold invoke. now rewrite onaudioprocess_emits.
Qed.

Lemma quiet_then_loud node ctx c quiet i s :
  handlers s !! node = Some (ctx, c) ->
  ctx ∉ closedContexts s ->
  Forall (fun q => (threshold <? rms (samples q))%float = false) quiet ->
  (threshold <? rms (samples i))%float = true ->
  LOG_INTERVAL < dateNow i - lastLogTime c ->
  emissions c (quiet ++ [i]) = [dateNow i] /\
  console (exec (forEach (audioprocess node) (quiet ++ [i])) s) =
    (console s ++
     [ConsoleLogAudio
        (mkAudioLog (if isLocal c then "Local Audio" else "Remote Audio")
           (participantName c) (closureSessionId c) (rms (samples i))
           (localeTime i))])%list.
Proof.
  intros Hnode Hopen Hquiet Hloud Hgap.
  induction Hquiet as [|q quiet Hq _ IH]; cbn [app].
  - split.
    + cbn [emissions]. unfold invoke. now rewrite onaudioprocess_emits.
    + rewrite exec_deliveries_cons. cbn [forEach].
      now apply (audioprocess_loud node ctx).
  - destruct IH as [IHe IHc]. split.
    + cbn [emissions]. unfold invoke at 1.
      now rewrite onaudioprocess_quiet by exact Hq.
    + rewrite exec_deliveries_cons.
      now rewrite (audioprocess_quiet node ctx c q s Hnode Hq).
Qed.

End FirstLog.

(** C10, as stated, fails at an early clock: Alice's chain is freshly
    attached, its throttle state is 0, the buffer is above the threshold,
    and at a clock reading of 500 ms nothing is logged. *)
Lemma fresh_chain_silent_at_clock_500 :
  handlers aliceAttached !! 3%nat = Some (0%nat, aliceClosure) /\
  lastLogTime aliceClosure = 0 /\
  (threshold <? rms (samples loudAt500))%float = true /\
  emissions aliceClosure [loudAt500] = [] /\
  console (exec (audioprocess 3 loudAt500) aliceAttached) = console aliceAttached.
Proof. repeat split; vm_compute; reflexivity. Qed.

(** C10, amended. On a chain that [processAudioStream] has just attached,
    the handler starts with [lastLogTime = 0]; so, whatever time has passed
    since the attachment and however many quiet buffers came first, the
    first buffer above the threshold is logged, provided the clock reading
    of that invocation is greater than 500, that is later than 500 ms
    after the epoch of [Date.now()]. *)
Theorem first_loud_buffer_logs (h : Host) (stream : MediaStream)
    (sid pname : string) (loc : bool) (s : State) (ctx : nat)
    (quiet : list Invocation) (i : Invocation) :
  audioContextRef s = Some ctx ->
  ctx ∉ closedContexts s ->
  throwsAt h stream = None ->
  Forall (fun q => (threshold <? rms (samples q))%float = false) quiet ->
  (threshold <? rms (samples i))%float = true ->
  LOG_INTERVAL < dateNow i ->
  handlers (exec (processAudioStream h stream sid pname loc) s)
    !! S (S (nextId s)) = Some (ctx, mkClosure loc pname sid 0) /\
  emissions (mkClosure loc pname sid 0) (quiet ++ [i]) = [dateNow i] /\
  (exists record,
     console (exec (forEach (audioprocess (S (S (nextId s)))) (quiet ++ [i]))
                (exec (processAudioStream h stream sid pname loc) s)) =
       (console (exec (processAudioStream h stream sid pname loc) s) ++
        [ConsoleLogAudio record])%list /\
     logType record = (if loc then "Local Audio" else "Remote Audio") /\
     logParticipant record = pname /\
     logSessionId record = sid /\
     timestamp record = localeTime i).
Proof.
  intros Hctx Hopen Hok Hquiet Hloud Hnow.
  assert (exec (processAudioStream h stream sid pname loc) s =
          attached h ctx sid pname loc s) as ->
    by (unfold exec; now rewrite (processAudioStream_ok h ctx)).
  assert (handlers (attached h ctx sid pname loc s) !! S (S (nextId s)) =
          Some (ctx, mkClosure loc pname sid 0)) as Hnode
    by (unfold attached; cbn; apply lookup_insert_eq).
  split; [exact Hnode|].
  destruct (quiet_then_loud (S (S (nextId s))) ctx (mkClosure loc pname sid 0)
              quiet i (attached h ctx sid pname loc s))
    as [Hemit Hconsole]; trivial; [cbn; lia|].
  split; [exact Hemit|]. eexists. split; [exact Hconsole|]. now repeat split.
Qed.

Lemma first_loud_buffer_logs_alice :
  handlers aliceAttached !! 3%nat = Some (0%nat, aliceClosure) /\
  emissions aliceClosure
    [mkInvocation boundaryBuffer 1700000000000 "10:00:00";
     mkInvocation squareWave 1700000000001 "10:00:00"] = [1700000000001] /\
  (exists record,
     console
       (exec (forEach (audioprocess 3)
                [mkInvocation boundaryBuffer 1700000000000 "10:00:00";
                 mkInvocation squareWave 1700000000001 "10:00:00"])
          aliceAttached) =
       (console aliceAttached ++ [ConsoleLogAudio record])%list /\
     logType record = "Remote Audio" /\
     logParticipant record = "Alice" /\
     logSessionId record = "s-alice" /\
     timestamp record = "10:00:00").
Proof.
  apply (first_loud_buffer_logs okHost 1%nat "s-alice" "Alice" false mountedAlone
           0%nat [mkInvocation boundaryBuffer 1700000000000 "10:00:00"]
           (mkInvocation squareWave 1700000000001 "10:00:00")).
  - reflexivity.
  - vm_compute. discriminate.
  - reflexivity.
  - constructor; [vm_compute; reflexivity|constructor].
  - vm_compute; reflexivity.
  - reflexivity.
Defined.

(** ** Further facts about the loudness monitor *)

Section ThrottleState.

Lemma after_cons c i invs :
  after c (i :: invs) = after (invoke c i).1 invs.
Proof. reflexivity. Qed.

Lemma invoke_cases c i :
  (invoke c i).1 = c /\ (invoke c i).2 = None \/
  (invoke c i).1 = setLastLogTime (dateNow i) c /\
  is_Some (invoke c i).2 /\ LOG_INTERVAL < dateNow i - lastLogTime c.
Proof.
  unfold invoke.
  destruct (onaudioprocess_cases c (samples i) (dateNow i) (localeTime i))
    as [(_ & Hgap & record & ->)|[_ ->]]; [right|left]; simpl; eauto.
Qed.

End ThrottleState.

(** X1. Along any run of invocations the throttle state of a chain is the
    clock reading of its latest log (its initial value while there is
    none); it never decreases, even when the clock steps back; and the
    captured arguments of [processAudioStream] never change. *)
Theorem throttle_state_is_latest_log (c : Closure) (invs : list Invocation) :
  lastLogTime (after c invs) = default (lastLogTime c) (last (emissions c invs)) /\
  lastLogTime c <= lastLogTime (after c invs) /\
  isLocal (after c invs) = isLocal c /\
  participantName (after c invs) = participantName c /\
  closureSessionId (after c invs) = closureSessionId c.
Proof.
  revert c. induction invs as [|i invs IH]; intros c.
  - cbn. repeat split; lia.
  - rewrite after_cons. cbn [emissions].
    destruct (IH (invoke c i).1) as (IHlast & IHle & IHloc & IHname & IHsid).
    destruct (invoke_cases c i) as [[Hc Hnone]|(Hc & [record Hsome] & Hgap)].
    + destruct (invoke c i) as [c' out]. cbn in Hc, Hnone. subst c' out.
      repeat split; assumption.
    + destruct (invoke c i) as [c' out]. cbn in Hc, Hsome. subst c' out.
      cbn [fst] in *. cbn [setLastLogTime lastLogTime isLocal participantName
                            closureSessionId] in *.
      unfold LOG_INTERVAL in Hgap.
      split; [|repeat split; try assumption; lia].
      rewrite IHlast, last_cons.
      now destruct (last (emissions (setLastLogTime (dateNow i) c) invs)).
Qed.

Section Silence.

Lemma Prim2SF_zero_of_eqb (x : float) :
  (x =? 0)%float = true -> exists sign, Prim2SF x = S754_zero sign.
Proof.
  rewrite FloatAxioms.eqb_spec. change (Prim2SF 0%float) with (S754_zero false).
  destruct (Prim2SF x) as [sign|sign| |sign m e]; cbn;
    try discriminate; eauto; destruct sign; discriminate.
Qed.

Lemma square_of_zero (x : float) : (x =? 0)%float = true -> (x * x)%float = 0%float.
Proof.
  intros [sign Hx]%Prim2SF_zero_of_eqb. apply Prim2SF_inj.
  rewrite FloatAxioms.mul_spec, Hx. now destruct sign.
Qed.

Lemma sumSquares_silence (l : list float) :
  Forall (fun x => (x =? 0)%float = true) l -> sumSquares l = 0%float.
Proof.
  unfold sumSquares. induction 1 as [|x l Hx _ IH]; [reflexivity|].
  cbn [fold_left]. rewrite (square_of_zero x Hx).
  change (0 + 0)%float with 0%float. exact IH.
Qed.

(** Zero divided by anything, under a square root, is not above the
    threshold. *)
Lemma zero_ratio_quiet (y : float) :
  (threshold <? PrimFloat.sqrt (0 / y))%float = false.
Proof.
  rewrite FloatAxioms.ltb_spec, FloatAxioms.sqrt_spec, FloatAxioms.div_spec.
  change (Prim2SF 0%float) with (S754_zero false).
  change (Prim2SF threshold) with (Prim2SF 0.01%float).
  destruct (Prim2SF y) as [sign|sign| |sign m e]; try destruct sign; reflexivity.
Qed.

End Silence.

(** X2. Digital silence never logs: a buffer all of whose samples are zero
    (of either sign), of any length, the empty buffer included, emits
    nothing and leaves the throttle state alone, whatever the clock. *)
Theorem silence_never_logs (c : Closure) (dataArray : list float) (now : Z)
    (clock : string) :
  Forall (fun x => (x =? 0)%float = true) dataArray ->
  onaudioprocess c dataArray now clock = (c, None).
Proof.
  intros Hzero. apply onaudioprocess_quiet. unfold rms.
  rewrite (sumSquares_silence dataArray Hzero). apply zero_ratio_quiet.
Qed.

Lemma silence_never_logs_example :
  onaudioprocess aliceClosure [0; -0; 0]%float 1700000000000 "10:00:00" =
    (aliceClosure, None) /\
  onaudioprocess aliceClosure [] 1700000000000 "10:00:00" = (aliceClosure, None).
Proof.
  split.
  - apply (silence_never_logs aliceClosure [0; -0; 0]%float).
    repeat constructor.
  - apply (silence_never_logs aliceClosure []). constructor.
Defined.

Section Polarity.

Lemma square_opp (x : float) : (- x * - x)%float = (x * x)%float.
Proof.
  apply Prim2SF_inj. rewrite !FloatAxioms.mul_spec, FloatAxioms.opp_spec. unfold SF64mul.
  destruct (Prim2SF x) as [sign|sign| |sign m e]; cbn; try reflexivity;
    now destruct sign.
Qed.

Lemma sumSquares_opp (l : list float) (acc : float) :
  fold_left (fun acc val => (acc + val * val)%float) (map PrimFloat.opp l) acc =
  fold_left (fun acc val => (acc + val * val)%float) l acc.
Proof.
  revert acc. induction l as [|x l IH]; intros acc; [reflexivity|].
  cbn [map fold_left]. now rewrite square_opp, IH.
Qed.

End Polarity.

(** X3. The level does not depend on polarity: inverting every sample of
    the buffer gives the same RMS, bit for bit, and so the same decision of
    the callback. *)
Theorem rms_polarity (c : Closure) (dataArray : list float) (now : Z)
    (clock : string) :
  rms (map PrimFloat.opp dataArray) = rms dataArray /\
  onaudioprocess c (map PrimFloat.opp dataArray) now clock =
    onaudioprocess c dataArray now clock.
Proof.
  assert (rms (map PrimFloat.opp dataArray) = rms dataArray) as Hrms.
  { unfold rms, sumSquares, lengthOf. now rewrite sumSquares_opp, length_map. }
  split; [exact Hrms|]. unfold onaudioprocess. now rewrite Hrms.
Qed.

(** ** Further facts about the remote-participant effect *)

Section ScanAnyHost.

Variable h : Host.

Lemma wiring_setting_up p s message :
  wiring (logged h message (announced h p s)) = wiring s.
Proof. now rewrite wiring_logged, wiring_announced. Qed.

Lemma wiring_fields s1 s2 :
  wiring s1 = wiring s2 ->
  audioContextRef s1 = audioContextRef s2 /\
  audioProcessorsRef s1 = audioProcessorsRef s2 /\
  nextId s1 = nextId s2 /\
  closedContexts s1 = closedContexts s2 /\
  connections s1 = connections s2 /\
  handlers s1 = handlers s2.
Proof. intros Hw. injection Hw as H1 H2 H3 H4 H5 H6. tauto. Qed.

Lemma attachable_cons p l :
  attachable h (p :: l) = attachable h [p] ∪ attachable h l.
Proof.
  unfold attachable. destruct (decide (canAttach h p = true)) as [Hp|Hp].
  - rewrite !filter_cons_True by exact Hp. cbn. set_solver.
  - rewrite !filter_cons_False by exact Hp. cbn. set_solver.
Qed.

Lemma attachable_single p :
  attachable h [p] = if canAttach h p then {[sessionId p]} else ∅.
Proof.
  unfold attachable. destruct (canAttach h p) eqn:Hp.
  - rewrite filter_cons_True by exact Hp. cbn. set_solver.
  - rewrite filter_cons_False by (rewrite Hp; discriminate). reflexivity.
Qed.

(** One step of the scan on any host. *)
Lemma checkParticipant_scan_any p s ctx :
  audioContextRef s = Some ctx ->
  audioContextRef (exec (checkParticipant h p) s) = Some ctx /\
  dom (audioProcessorsRef (exec (checkParticipant h p) s)) =
    dom (audioProcessorsRef s) ∪ attachable h [p] /\
  (forall sid, is_Some (audioProcessorsRef s !! sid) ->
     audioProcessorsRef (exec (checkParticipant h p) s) !! sid =
       audioProcessorsRef s !! sid).
Proof.
  intros Hctx. rewrite attachable_single. unfold canAttach.
  destruct (audioStream p) as [stream|] eqn:Hs.
  - destruct (audioProcessorsRef s !! sessionId p) as [chain|] eqn:Hreg.
    + destruct (checkParticipant_skips h p s (mk_is_Some _ _ Hreg)) as [_ Hw].
      injection Hw as Hc Hr _ _ _ _. rewrite Hc, Hr. repeat split; trivial.
      apply elem_of_dom_2 in Hreg. case_bool_decide; set_solver.
    + destruct (throwsAt h stream) as [call|] eqn:Hthrow.
      * rewrite bool_decide_eq_false_2 by discriminate.
        rewrite exec_checkParticipant, Hs, Hreg.
        destruct (processAudioStream_fails h stream (sessionId p) (name p) false
                    (logged h ("Setting up audio processing for " +:+ name p)
                       (announced h p s)) call Hthrow) as (_ & Hc & Hr).
        destruct (wiring_fields _ _
                    (wiring_setting_up p s
                       ("Setting up audio processing for " +:+ name p)))
          as (Hc0 & Hr0 & _).
        rewrite Hc, Hr, Hc0, Hr0. repeat split; trivial. set_solver.
      * rewrite bool_decide_eq_true_2 by reflexivity.
        destruct (checkParticipant_attaches h p s ctx stream Hctx Hs Hthrow Hreg)
          as [_ Hw].
        injection Hw as Hc Hr _ _ _ _. rewrite Hc, Hr. cbn.
        repeat split; trivial.
        -- rewrite dom_insert_L. set_solver.
        -- intros sid [c Hsid]. rewrite lookup_insert_ne; [reflexivity|congruence].
  - rewrite exec_checkParticipant, Hs.
    destruct (wiring_fields _ _
                (wiring_setting_up p s ("No audio available for " +:+ name p)))
      as (Hc0 & Hr0 & _).
    rewrite Hc0, Hr0.
    repeat split; trivial. set_solver.
Qed.

(** A scan all of whose participants with a stream are registered touches
    the logs only. *)
Lemma remoteEffect_all_registered l s :
  (forall p, p ∈ l -> is_Some (audioStream p) ->
     is_Some (audioProcessorsRef s !! sessionId p)) ->
  wiring (exec (remoteEffect h l) s) = wiring s.
Proof.
  revert s. induction l as [|p l IH]; intros s Hall; [reflexivity|].
  rewrite exec_remoteEffect_cons.
  assert (wiring (exec (checkParticipant h p) s) = wiring s) as Hw.
  { destruct (audioStream p) as [stream|] eqn:Hs.
    - apply checkParticipant_skips, Hall; [left|]. rewrite Hs. eauto.
    - rewrite exec_checkParticipant, Hs. apply wiring_setting_up. }
  rewrite IH; [exact Hw|].
  intros q Hq Hstream. destruct (wiring_fields _ _ Hw) as (_ & -> & _).
  apply Hall; [now right|exact Hstream].
Qed.

(** Without a context nothing is attached. *)
Lemma remoteEffect_without_context l s :
  audioContextRef s = None -> wiring (exec (remoteEffect h l) s) = wiring s.
Proof.
  revert s. induction l as [|p l IH]; intros s Hctx; [reflexivity|].
  rewrite exec_remoteEffect_cons.
  assert (wiring (exec (checkParticipant h p) s) = wiring s) as Hw.
  { rewrite exec_checkParticipant.
    destruct (audioStream p) as [stream|];
      [|apply wiring_setting_up].
    destruct (audioProcessorsRef s !! sessionId p) as [chain|];
      [apply wiring_announced|].
    pose proof (wiring_setting_up p s
                  ("Setting up audio processing for " +:+ name p)) as Hw.
    unfold exec. rewrite processAudioStream_no_context; [exact Hw|].
    destruct (wiring_fields _ _ Hw) as (-> & _). exact Hctx. }
  rewrite IH; [exact Hw|]. destruct (wiring_fields _ _ Hw) as (-> & _). exact Hctx.
Qed.

End ScanAnyHost.

(** X4. A failure does not stop the scan: on any host, the sessions
    registered after a notification are the earlier ones and those of the
    participants with a stream on which no host call throws, whichever
    other participants of the list fail; the earlier entries are untouched
    and the effect returns normally. *)
Theorem remote_scan_isolates_failures (h : Host) (l : list Participant)
    (s : State) (ctx : nat) :
  audioContextRef s = Some ctx ->
  (remoteEffect h l s).1 = Returned tt /\
  audioContextRef (exec (remoteEffect h l) s) = Some ctx /\
  dom (audioProcessorsRef (exec (remoteEffect h l) s)) =
    dom (audioProcessorsRef s) ∪ attachable h l /\
  (forall sid, is_Some (audioProcessorsRef s !! sid) ->
     audioProcessorsRef (exec (remoteEffect h l) s) !! sid =
       audioProcessorsRef s !! sid).
Proof.
  intros Hctx. split; [apply remoteEffect_returns|].
  revert s Hctx. induction l as [|p l IH]; intros s Hctx.
  - cbn. repeat split; trivial. unfold attachable. cbn. set_solver.
  - rewrite exec_remoteEffect_cons.
    destruct (checkParticipant_scan_any h p s ctx Hctx) as (Hctx1 & Hdom1 & Hold1).
    destruct (IH (exec (checkParticipant h p) s) Hctx1) as (Hctx2 & Hdom2 & Hold2).
    split; [exact Hctx2|]. split.
    + rewrite Hdom2, Hdom1, (attachable_cons h p l). set_solver.
    + intros sid Hsid. rewrite Hold2; [now apply Hold1|].
      rewrite Hold1 by exact Hsid. exact Hsid.
Qed.

Lemma remote_scan_isolates_failures_example :
  (remoteEffect aliceFailsHost [alice; bob; carol] mountedAlone).1 = Returned tt /\
  audioContextRef (exec (remoteEffect aliceFailsHost [alice; bob; carol]) mountedAlone)
    = Some 0%nat /\
  dom (audioProcessorsRef
         (exec (remoteEffect aliceFailsHost [alice; bob; carol]) mountedAlone)) =
    dom (audioProcessorsRef mountedAlone) ∪ attachable aliceFailsHost [alice; bob; carol] /\
  attachable aliceFailsHost [alice; bob; carol] = {["s-bob"]}.
Proof.
  destruct (remote_scan_isolates_failures aliceFailsHost [alice; bob; carol]
              mountedAlone 0%nat eq_refl) as (Hret & Hctx & Hdom & _).
  split; [exact Hret|]. split; [exact Hctx|]. split; [exact Hdom|].
  vm_compute. reflexivity.
Defined.

(** X5. The scan is idempotent on whole lists: after a notification on a
    host that does not throw, a second notification with the same list, on
    any host, changes nothing but the logs. *)
Theorem remote_scan_idempotent (h1 h2 : Host) (l : list Participant)
    (s : State) (ctx : nat) :
  audioContextRef s = Some ctx ->
  (forall p stream, p ∈ l -> audioStream p = Some stream ->
     throwsAt h1 stream = None) ->
  wiring (exec (remoteEffect h2 l) (exec (remoteEffect h1 l) s)) =
    wiring (exec (remoteEffect h1 l) s).
Proof.
  intros Hctx Hok.
  destruct (remoteEffect_scan h1 l s ctx Hctx Hok) as (_ & Hdom & _).
  apply remoteEffect_all_registered. intros p Hp Hstream.
  apply elem_of_dom. rewrite Hdom. apply elem_of_union_r.
  unfold streaming. apply elem_of_list_to_set, list_elem_of_fmap.
  exists p. split; [reflexivity|]. now apply list_elem_of_filter.
Qed.

Lemma remote_scan_idempotent_example :
  wiring (exec (remoteEffect badHost [alice; bob; carol])
            (exec (remoteEffect okHost [alice; bob; carol]) mountedAlone)) =
    wiring (exec (remoteEffect okHost [alice; bob; carol]) mountedAlone).
Proof.
  apply (remote_scan_idempotent okHost badHost [alice; bob; carol] mountedAlone 0%nat).
  - reflexivity.
  - intros p stream _ _. reflexivity.
Defined.

(** X6. Without an audio context the scan attaches nothing, for any list
    and any host: the registry and the graph are untouched and the effect
    returns normally, although the debug log still announces the setup of
    an unregistered participant with a stream. *)
Theorem remote_scan_without_context (h : Host) (l : list Participant) (s : State) :
  audioContextRef s = None ->
  (remoteEffect h l s).1 = Returned tt /\
  wiring (exec (remoteEffect h l) s) = wiring s /\
  (forall p stream,
     audioStream p = Some stream ->
     audioProcessorsRef s !! sessionId p = None ->
     last (debugInfo (exec (remoteEffect h [p]) s)) =
       Some (toLocaleTimeString h +:+ ": " +:+
             ("Setting up audio processing for " +:+ name p))).
Proof.
  intros Hctx. split; [apply remoteEffect_returns|].
  split; [now apply remoteEffect_without_context|].
  intros p stream Hs Hreg.
  assert (exec (remoteEffect h [p]) s = exec (checkParticipant h p) s) as ->
    by (unfold exec; now rewrite remoteEffect_single).
  rewrite exec_checkParticipant, Hs, Hreg. unfold exec.
  rewrite processAudioStream_no_context.
  - cbn [snd]. unfold logged at 1. cbn [debugInfo setDebugInfoState].
    apply last_snoc.
  - destruct (wiring_fields _ _
                (wiring_setting_up h p s
                   ("Setting up audio processing for " +:+ name p)))
      as (-> & _). exact Hctx.
Qed.

Lemma remote_scan_without_context_example :
  (remoteEffect okHost [alice; carol] initial).1 = Returned tt /\
  wiring (exec (remoteEffect okHost [alice; carol]) initial) = wiring initial /\
  last (debugInfo (exec (remoteEffect okHost [alice]) initial)) =
    Some "10:00:00: Setting up audio processing for Alice".
Proof.
  destruct (remote_scan_without_context okHost [alice; carol] initial eq_refl)
    as (Hret & Hw & Hlog).
  split; [exact Hret|]. split; [exact Hw|].
  exact (Hlog alice 1%nat eq_refl eq_refl).
Defined.

(** ** Invariants of the life cycle *)

Section Soundness.

Variable h : Host.

Lemma debugInfo_logged message s :
  debugInfo (logged h message s) =
    (sliceLast 20 (debugInfo s) ++ [toLocaleTimeString h +:+ ": " +:+ message])%list.
Proof. reflexivity. Qed.

Lemma console_logged message s :
  console (logged h message s) = (console s ++ [ConsoleLog message])%list.
Proof. reflexivity. Qed.

Lemma debugBounded_logged message s : debugBounded (logged h message s).
Proof.
  unfold debugBounded. rewrite debugInfo_logged, length_app, sliceLast_length.
  cbn [length]. lia.
Qed.

Lemma consoleAudible_snoc_log (entries : list ConsoleEntry) message :
  (forall r, ConsoleLogAudio r ∈ entries -> audible r) ->
  forall r, ConsoleLogAudio r ∈ (entries ++ [ConsoleLog message])%list -> audible r.
Proof.
  intros Hold r [Hr|Hr%list_elem_of_singleton]%elem_of_app; [auto|discriminate].
Qed.

Lemma consoleAudible_snoc_error (entries : list ConsoleEntry) message call :
  (forall r, ConsoleLogAudio r ∈ entries -> audible r) ->
  forall r, ConsoleLogAudio r ∈ (entries ++ [ConsoleError message call])%list ->
    audible r.
Proof.
  intros Hold r [Hr|Hr%list_elem_of_singleton]%elem_of_app; [auto|discriminate].
Qed.

Lemma settled_logged message s : settled s -> settled (logged h message s).
Proof.
  intros (_ & Hids & Hloc & Hcon).
  split; [apply debugBounded_logged|]. split; [exact Hids|]. split; [exact Hloc|].
  unfold consoleAudible. rewrite console_logged.
  now apply consoleAudible_snoc_log.
Qed.

Lemma sound_logged message s : sound s -> sound (logged h message s).
Proof.
  intros (Hset & Hopen & Hlive).
  split; [now apply settled_logged|]. split; [exact Hopen|exact Hlive].
Qed.

Lemma sound_announced p s : sound s -> sound (announced h p s).
Proof. intros Hs. unfold announced. now repeat apply sound_logged. Qed.

Lemma sound_attached ctx sid pname loc s :
  audioContextRef s = Some ctx ->
  (loc = true -> pname = "Local User") ->
  sound s -> sound (attached h ctx sid pname loc s).
Proof.
  intros Hctx Hname ((_ & (Hcl & Hcur & Hnodes) & Hloc & Hcon) & Hopen & Hlive).
  split; [split; [|split; [|split]]|split].
  - unfold debugBounded, attached. cbn [debugInfo].
    rewrite length_app, sliceLast_length. cbn [length]. lia.
  - unfold idsBelow, attached. cbn [closedContexts audioContextRef nextId handlers].
    split; [|split].
    + intros ctx' Hin. specialize (Hcl ctx' Hin). lia.
    + intros ctx' Heq. specialize (Hcur ctx' Heq). lia.
    + intros node ctx' cl. rewrite lookup_insert.
      case_decide; [intros _; lia|]. intros Hnode.
      specialize (Hnodes node ctx' cl Hnode). lia.
  - unfold localNamed, attached. cbn [handlers]. intros node ctx' cl.
    rewrite lookup_insert. case_decide; [|apply Hloc].
    intros [= _ <-]. exact Hname.
  - unfold consoleAudible, attached. cbn [console].
    now apply consoleAudible_snoc_log.
  - exact Hopen.
  - unfold chainsLive, attached.
    cbn [audioProcessorsRef audioContextRef handlers].
    intros sid' chain. rewrite lookup_insert. case_decide.
    + intros [= <-]. cbn [sourceNode analyserNode processorNode].
      split; [reflexivity|]. split; [reflexivity|].
      exists ctx, (mkClosure loc pname sid 0).
      split; [exact Hctx|]. split; [apply lookup_insert_eq|]. now subst.
    + intros Hchain.
      destruct (Hlive sid' chain Hchain) as (Han & Hpr & ctx0 & cl & Hc0 & Hcl0 & Hsid).
      split; [exact Han|]. split; [exact Hpr|]. exists ctx0, cl.
      split; [exact Hc0|]. split; [|exact Hsid].
      rewrite lookup_insert_ne; [exact Hcl0|].
      specialize (Hnodes _ _ _ Hcl0). lia.
Qed.

(** What a failed construction leaves of the identities. *)
Lemma processAudioStream_throws_ids ctx stream sid pname loc s call :
  audioContextRef s = Some ctx ->
  throwsAt h stream = Some call ->
  (nextId s <= nextId (exec (processAudioStream h stream sid pname loc) s))%nat.
Proof.
  intros Hctx Hthrow. unfold exec, processAudioStream, tryCatch. rewrite Hctx.
  unfold buildChain, createMediaStreamSource, createAnalyser,
    createScriptProcessor, connect.
  destruct call;
    repeat (first
      [ rewrite (hostCall_throw _ _ _ Hthrow)
      | rewrite hostCall_pass by (rewrite Hthrow; discriminate) ]);
    cbn; lia.
Qed.

Lemma processAudioStream_sound stream sid pname loc s :
  (loc = true -> pname = "Local User") ->
  sound s -> sound (exec (processAudioStream h stream sid pname loc) s).
Proof.
  intros Hname Hs. pose proof Hs as (_ & (ctx & Hctx & _) & _).
  destruct (throwsAt h stream) as [call|] eqn:Hthrow.
  - pose proof (processAudioStream_throws_ids ctx stream sid pname loc s call
                  Hctx Hthrow) as Hnext.
    unfold exec in *.
    destruct (processAudioStream_throws h ctx stream sid pname loc s call
                Hctx Hthrow) as (s' & Hrun & Hc & Hr & Hh & Hcl & Hd & Hco & _).
    rewrite Hrun in Hnext |- *. cbn [snd] in Hnext |- *.
    destruct Hs as ((Hb & (Hclo & Hcur & Hnodes) & Hloc & Hcon) & Hopen & Hlive).
    split; [split; [|split; [|split]]|split].
    + unfold debugBounded. now rewrite Hd.
    + unfold idsBelow. rewrite Hcl, Hc, Hh. split; [|split].
      * intros ctx' Hin. specialize (Hclo ctx' Hin). lia.
      * intros ctx' Heq. specialize (Hcur ctx' Heq). lia.
      * intros node ctx' cl Hnode. specialize (Hnodes node ctx' cl Hnode). lia.
    + unfold localNamed. now rewrite Hh.
    + unfold consoleAudible. rewrite Hco. now apply consoleAudible_snoc_error.
    + unfold contextOpen. now rewrite Hc, Hcl.
    + unfold chainsLive. now rewrite Hr, Hc, Hh.
  - unfold exec. rewrite (processAudioStream_ok h ctx) by assumption.
    now apply sound_attached.
Qed.

Lemma checkParticipant_sound p s :
  sound s -> sound (exec (checkParticipant h p) s).
Proof.
  intros Hs. rewrite exec_checkParticipant.
  destruct (audioStream p) as [stream|].
  - destruct (audioProcessorsRef s !! sessionId p) as [chain|].
    + now apply sound_announced.
    + apply processAudioStream_sound; [discriminate|].
      now apply sound_logged, sound_announced.
  - now apply sound_logged, sound_announced.
Qed.

Lemma remoteEffect_sound l s : sound s -> sound (exec (remoteEffect h l) s).
Proof.
  revert s. induction l as [|p l IH]; intros s Hs; [exact Hs|].
  rewrite exec_remoteEffect_cons. now apply IH, checkParticipant_sound.
Qed.

Lemma newAudioContext_sound s :
  settled s -> audioProcessorsRef s = ∅ ->
  sound (setAudioContextRef (Some (nextId s)) (setNextId (S (nextId s)) s)).
Proof.
  intros (Hb & (Hclo & Hcur & Hnodes) & Hloc & Hcon) Hempty.
  split; [split; [exact Hb|split; [|split; [exact Hloc|exact Hcon]]]|split].
  - unfold idsBelow. cbn. split; [|split].
    + intros ctx Hin. specialize (Hclo ctx Hin). lia.
    + intros ctx [= <-]. lia.
    + intros node ctx cl Hnode. specialize (Hnodes node ctx cl Hnode). lia.
  - exists (nextId s). split; [reflexivity|]. cbn. intros Hin.
    specialize (Hclo _ Hin). lia.
  - intros sid chain. cbn. rewrite Hempty. now rewrite lookup_empty.
Qed.

Lemma setupEffect_sound lp s :
  settled s -> audioProcessorsRef s = ∅ -> sound (exec (setupEffect h lp) s).
Proof.
  intros Hs Hempty. pose proof (newAudioContext_sound s Hs Hempty) as Hnew.
  rewrite exec_setupEffect.
  destruct lp as [lp|]; [|now apply sound_logged].
  destruct (audioStream lp) as [stream|]; [|now apply sound_logged].
  apply processAudioStream_sound; [reflexivity|].
  now apply sound_logged, sound_logged.
Qed.

Lemma closedContexts_tornDown s :
  closedContexts (tornDown h s) =
    match audioContextRef s with
    | Some ctx => {[ctx]} ∪ closedContexts s
    | None => closedContexts s
    end.
Proof. unfold tornDown. destruct (audioContextRef s); cbn; reflexivity. Qed.

Lemma audioContextRef_tornDown s :
  audioContextRef (tornDown h s) = audioContextRef s.
Proof. unfold tornDown. destruct (audioContextRef s) eqn:Hctx; cbn; congruence. Qed.

Lemma nextId_tornDown s : nextId (tornDown h s) = nextId s.
Proof. unfold tornDown. destruct (audioContextRef s); cbn; reflexivity. Qed.

Lemma console_tornDown s :
  console (tornDown h s) = (console s ++ [ConsoleLog "AudioContext cleaned up"])%list.
Proof. unfold tornDown. destruct (audioContextRef s); cbn; reflexivity. Qed.

Lemma tornDown_settled s : settled s -> settled (tornDown h s).
Proof.
  intros (_ & (Hclo & Hcur & Hnodes) & Hloc & Hcon).
  split; [apply debugBounded_logged|]. split; [|split].
  - unfold idsBelow.
    rewrite closedContexts_tornDown, audioContextRef_tornDown, nextId_tornDown,
      handlers_tornDown.
    split; [|split; [exact Hcur|exact Hnodes]].
    intros ctx. destruct (audioContextRef s) as [ctx0|] eqn:Hctx; [|apply Hclo].
    intros [->%elem_of_singleton|Hin]%elem_of_union; [now apply Hcur|now apply Hclo].
  - unfold localNamed. now rewrite handlers_tornDown.
  - unfold consoleAudible. rewrite console_tornDown.
    now apply consoleAudible_snoc_log.
Qed.

Lemma invoke_record c i r :
  (invoke c i).2 = Some r ->
  (threshold <? rmsLevel r)%float = true /\
  logType r = (if isLocal c then "Local Audio" else "Remote Audio") /\
  logParticipant r = participantName c /\
  logSessionId r = closureSessionId c.
Proof.
  unfold invoke.
  destruct (onaudioprocess_cases c (samples i) (dateNow i) (localeTime i))
    as [(Hloud & Hgap & _)|[_ ->]]; [|discriminate].
  rewrite (onaudioprocess_emits _ _ _ _ Hloud Hgap). cbn. now intros [= <-].
Qed.

Lemma invoke_keeps c i :
  isLocal (invoke c i).1 = isLocal c /\
  participantName (invoke c i).1 = participantName c /\
  closureSessionId (invoke c i).1 = closureSessionId c.
Proof.
  destruct (invoke_cases c i) as [[-> _]|(-> & _)]; now repeat split.
Qed.

Lemma audioprocess_sound node i s :
  sound s -> sound (exec (audioprocess node i) s).
Proof.
  intros Hs. unfold exec, audioprocess.
  destruct (handlers s !! node) as [[ctx c]|] eqn:Hnode; [|exact Hs].
  case_bool_decide; [|exact Hs]. cbn [snd].
  destruct Hs as ((Hb & (Hclo & Hcur & Hnodes) & Hloc & Hcon) & Hopen & Hlive).
  destruct (invoke_keeps c i) as (Hkl & Hkn & Hks).
  split; [split; [exact Hb|split; [|split]]|split].
  - split; [exact Hclo|split; [exact Hcur|]]. cbn. intros node' ctx' cl.
    rewrite lookup_insert. case_decide; [subst; intros _; eauto|apply Hnodes].
  - intros node' ctx' cl. cbn. rewrite lookup_insert.
    case_decide; [|apply Hloc]. intros [= _ <-]. rewrite Hkl, Hkn.
    exact (Hloc node ctx c Hnode).
  - intros r. cbn.
    intros [Hr|Hr]%elem_of_app; [now apply Hcon|].
    destruct (invoke c i).2 as [record|] eqn:Hout; [|inversion Hr].
    apply list_elem_of_singleton in Hr. injection Hr as ->.
    destruct (invoke_record c i record Hout) as (Hloud & Htype & Hpart & _).
    split; [exact Hloud|]. rewrite Htype, Hpart.
    destruct (isLocal c) eqn:Hl; [left|now right].
    split; [reflexivity|]. exact (Hloc node ctx c Hnode Hl).
  - exact Hopen.
  - intros sid chain Hchain.
    destruct (Hlive sid chain Hchain) as (Han & Hpr & ctx0 & cl & Hc0 & Hcl0 & Hsid).
    split; [exact Han|]. split; [exact Hpr|]. cbn.
    destruct (decide (node = processorNode chain)) as [->|Hne].
    + rewrite Hnode in Hcl0. injection Hcl0 as <- <-.
      exists ctx, (invoke c i).1. rewrite lookup_insert_eq.
      split; [exact Hc0|]. split; [reflexivity|]. now rewrite Hks.
    + exists ctx0, cl. rewrite lookup_insert_ne by exact Hne. auto.
Qed.

End Soundness.

Lemma initial_settled : settled initial.
Proof.
  split; [unfold debugBounded; cbn; lia|]. split; [|split].
  - split; [|split]; cbn.
    + intros ctx Hin. now apply elem_of_empty in Hin.
    + discriminate.
    + intros node ctx cl. now rewrite lookup_empty.
  - intros node ctx cl. cbn. now rewrite lookup_empty.
  - intros r Hr. cbn in Hr. inversion Hr.
Qed.

Lemma reachable_sound s : reachable s -> sound s.
Proof.
  induction 1 as [h lp rps|h e s _ IH].
  - unfold mount. rewrite (exec_bind _ _ _ tt) by apply setupEffect_returns.
    apply remoteEffect_sound, setupEffect_sound; [apply initial_settled|reflexivity].
  - destruct e as [lp|rps|node i]; cbn [handle].
    + rewrite (exec_bind _ _ _ tt) by now rewrite cleanupEffect_run.
      rewrite exec_cleanupEffect.
      apply setupEffect_sound; [apply tornDown_settled, IH|].
      apply audioProcessorsRef_tornDown.
    + now apply remoteEffect_sound.
    + now apply audioprocess_sound.
Qed.

(** ** What the life cycle guarantees *)

(** X7. In every state the component reaches, the on-screen debug log
    holds at most 21 entries. *)
Theorem debug_log_bounded (s : State) :
  reachable s -> (length (debugInfo s) <= 21)%nat.
Proof. intros Hreach. now destruct (reachable_sound s Hreach) as ((Hb & _) & _). Qed.

Lemma debug_log_bounded_remounted : (length (debugInfo remounted) <= 21)%nat.
Proof.
  apply (debug_log_bounded remounted).
  unfold remounted, threeRemote, mountedWithAlice.
  apply reachable_handle, reachable_handle, reachable_mount.
Defined.

(** X8. In every state the component reaches, a registered chain is live:
    its processor node holds a handler that belongs to the current, open
    audio context and was installed for the session it is registered
    under, the browser serves it, and its analyser feeds its processor. *)
Theorem registered_chain_is_live (s : State) (sid : string) (chain : Chain) :
  reachable s ->
  audioProcessorsRef s !! sid = Some chain ->
  fires s (processorNode chain) = true /\
  (AnalyserNode (analyserNode chain), ScriptProcessorNode (processorNode chain))
    ∈ connections s /\
  (exists ctx cl,
     audioContextRef s = Some ctx /\
     (ctx ∉ closedContexts s) /\
     handlers s !! processorNode chain = Some (ctx, cl) /\
     closureSessionId cl = sid).
Proof.
  intros Hreach Hchain.
  destruct (reachable_sound s Hreach) as (_ & (ctx & Hctx & Hopen) & Hlive).
  destruct (reachable_consistent s Hreach) as [_ Hwi].
  destruct (Hlive sid chain Hchain) as (_ & _ & ctx' & cl & Hctx' & Hcl & Hsid).
  assert (ctx' = ctx) as -> by congruence.
  split; [|split; [apply (Hwi sid chain Hchain)|eauto 10]].
  unfold fires. rewrite Hcl. now apply bool_decide_eq_true.
Qed.

Lemma registered_chain_is_live_bob :
  fires threeRemote 6%nat = true /\
  (AnalyserNode 5, ScriptProcessorNode 6) ∈ connections threeRemote /\
  (exists ctx cl,
     audioContextRef threeRemote = Some ctx /\
     (ctx ∉ closedContexts threeRemote) /\
     handlers threeRemote !! 6%nat = Some (ctx, cl) /\
     closureSessionId cl = "s-bob").
Proof.
  apply (registered_chain_is_live threeRemote "s-bob" (mkChain 4 6 5));
    [|reflexivity].
  unfold threeRemote, mountedWithAlice. apply reachable_handle, reachable_mount.
Defined.

(** X9. In every state the component reaches, two different registered
    sessions share no node: their source nodes, their analysers and their
    processors are different objects. *)
Theorem registered_chains_are_apart (s : State) (sid1 sid2 : string)
    (c1 c2 : Chain) :
  reachable s ->
  sid1 <> sid2 ->
  audioProcessorsRef s !! sid1 = Some c1 ->
  audioProcessorsRef s !! sid2 = Some c2 ->
  sourceNode c1 <> sourceNode c2 /\
  analyserNode c1 <> analyserNode c2 /\
  processorNode c1 <> processorNode c2.
Proof.
  intros Hreach Hne H1 H2.
  destruct (reachable_sound s Hreach) as (_ & _ & Hlive).
  destruct (Hlive sid1 c1 H1) as (Ha1 & Hp1 & ctx1 & cl1 & _ & Hcl1 & Hsid1).
  destruct (Hlive sid2 c2 H2) as (Ha2 & Hp2 & ctx2 & cl2 & _ & Hcl2 & Hsid2).
  assert (processorNode c1 <> processorNode c2) as Hproc.
  { intros Heq. rewrite Heq, Hcl2 in Hcl1. injection Hcl1 as _ <-. congruence. }
  rewrite Ha1, Ha2. rewrite Hp1, Hp2 in Hproc. repeat split; congruence.
Qed.

Lemma registered_chains_are_apart_example :
  sourceNode (mkChain 1 3 2) <> sourceNode (mkChain 4 6 5) /\
  analyserNode (mkChain 1 3 2) <> analyserNode (mkChain 4 6 5) /\
  processorNode (mkChain 1 3 2) <> processorNode (mkChain 4 6 5).
Proof.
  apply (registered_chains_are_apart threeRemote "s-alice" "s-bob");
    [|discriminate|reflexivity|reflexivity].
  unfold threeRemote, mountedWithAlice. apply reachable_handle, reachable_mount.
Defined.

(** X10. In every state the component reaches, every audio record on the
    console is tagged either as remote audio or as local audio, and a
    record of local audio names the participant "Local User". *)
Theorem console_records_are_tagged (s : State) (r : AudioLog) :
  reachable s ->
  ConsoleLogAudio r ∈ console s ->
  (logType r = "Local Audio" /\ logParticipant r = "Local User") \/
  logType r = "Remote Audio".
Proof.
  intros Hreach Hr.
  destruct (reachable_sound s Hreach) as ((_ & _ & _ & Hcon) & _).
  exact (proj2 (Hcon r Hr)).
Qed.

Lemma console_records_are_tagged_alice :
  (logType aliceRecord = "Local Audio" /\ logParticipant aliceRecord = "Local User") \/
  logType aliceRecord = "Remote Audio".
Proof.
  apply (console_records_are_tagged aliceSpoke aliceRecord).
  - unfold aliceSpoke, mountedWithAlice. apply reachable_handle, reachable_mount.
  - apply (list_elem_of_lookup_2 _ 7%nat). reflexivity.
Defined.

Section Frames.

Variable h : Host.

(** What a call of [processAudioStream] leaves alone, whatever its outcome:
    the closed contexts, the handlers of the nodes that existed, and the
    registry entries of the other sessions. *)
Lemma processAudioStream_frame stream sid pname loc s :
  closedContexts (exec (processAudioStream h stream sid pname loc) s) =
    closedContexts s /\
  (forall node, (node < nextId s)%nat ->
     handlers (exec (processAudioStream h stream sid pname loc) s) !! node =
       handlers s !! node) /\
  (forall sid', sid' <> sid ->
     audioProcessorsRef (exec (processAudioStream h stream sid pname loc) s) !! sid' =
       audioProcessorsRef s !! sid').
Proof.
  unfold exec. destruct (audioContextRef s) as [ctx|] eqn:Hctx;
    [|now rewrite processAudioStream_no_context].
  destruct (throwsAt h stream) as [call|] eqn:Hthrow.
  - destruct (processAudioStream_throws h ctx stream sid pname loc s call
                Hctx Hthrow) as (s' & -> & _ & Hr & Hh & Hcl & _).
    cbn [snd]. now rewrite Hr, Hh, Hcl.
  - rewrite (processAudioStream_ok h ctx) by assumption. cbn [snd].
    unfold attached. cbn [closedContexts handlers audioProcessorsRef].
    split; [reflexivity|]. split.
    + intros node Hnode. apply lookup_insert_ne. lia.
    + intros sid' Hne. now apply lookup_insert_ne.
Qed.

(** A construction that fails at one of the last two connections has
    already connected the new source node to the new analyser. *)
Lemma processAudioStream_throws_late ctx stream sid pname loc s call :
  audioContextRef s = Some ctx ->
  throwsAt h stream = Some call ->
  call = ConnectAnalyserToProcessor \/ call = ConnectProcessorToDestination ->
  (MediaStreamAudioSourceNode (nextId s), AnalyserNode (S (nextId s)))
    ∈ connections (exec (processAudioStream h stream sid pname loc) s).
Proof.
  intros Hctx Hthrow Hlate. unfold exec, processAudioStream, tryCatch. rewrite Hctx.
  unfold buildChain, createMediaStreamSource, createAnalyser,
    createScriptProcessor, connect.
  destruct Hlate as [-> | ->];
    repeat (first
      [ rewrite (hostCall_throw _ _ _ Hthrow)
      | rewrite hostCall_pass by (rewrite Hthrow; discriminate) ]);
    cbn; rewrite ?elem_of_app, ?list_elem_of_singleton; tauto.
Qed.

Lemma audioprocess_frame n i s :
  closedContexts (exec (audioprocess n i) s) = closedContexts s /\
  (forall node, node <> n ->
     handlers (exec (audioprocess n i) s) !! node = handlers s !! node).
Proof.
  unfold exec, audioprocess.
  destruct (handlers s !! n) as [[ctx c]|]; [|now split].
  case_bool_decide; [|now split]. cbn. split; [reflexivity|].
  intros node Hne. now apply lookup_insert_ne.
Qed.

Lemma audioprocess_own n ctx c i s :
  handlers s !! n = Some (ctx, c) ->
  ctx ∉ closedContexts s ->
  handlers (exec (audioprocess n i) s) !! n = Some (ctx, (invoke c i).1).
Proof.
  intros Hn Hopen. unfold exec, audioprocess. rewrite Hn.
  rewrite bool_decide_eq_true_2 by exact Hopen. cbn. apply lookup_insert_eq.
Qed.

Lemma exec_deliver_cons d ds s :
  exec (deliver (d :: ds)) s = exec (deliver ds) (exec (audioprocess d.1 d.2) s).
Proof.
  unfold deliver. cbn [forEach].
  now rewrite (exec_bind _ _ _ tt) by apply audioprocess_returns.
Qed.

End Frames.

(** X11. A change of the local participant resets everything: afterwards
    the registry holds at most the session of the new local participant
    (the remote chains are gone until the next remote notification), and,
    from a state the component reaches, no handler that existed before is
    served any more. *)
Theorem local_change_resets_chains (h : Host) (lp : option Participant)
    (s : State) :
  reachable s ->
  (forall sid,
     is_Some (audioProcessorsRef
                (exec (handle h (LocalParticipantChanged lp)) s) !! sid) ->
     exists p stream,
       lp = Some p /\ audioStream p = Some stream /\ sid = sessionId p) /\
  (forall node,
     is_Some (handlers s !! node) ->
     fires (exec (handle h (LocalParticipantChanged lp)) s) node = false).
Proof.
  intros Hreach.
  destruct (reachable_sound s Hreach) as ((_ & (_ & _ & Hnodes) & _) & _).
  destruct (reachable_consistent s Hreach) as [Htr _].
  destruct (tornDown_closed h s Htr) as [Hclosed _].
  cbn [handle]. rewrite (exec_bind _ _ _ tt) by now rewrite cleanupEffect_run.
  rewrite exec_cleanupEffect, exec_setupEffect.
  pose proof (audioProcessorsRef_tornDown h s) as Hempty.
  pose proof (handlers_tornDown h s) as Hh.
  pose proof (nextId_tornDown h s) as Hn.
  revert Hclosed Hempty Hh Hn. generalize (tornDown h s). intros s1 Hclosed Hempty Hh Hn.
  assert (forall st,
            audioProcessorsRef st = ∅ -> handlers st = handlers s1 ->
            closedContexts st = closedContexts s1 ->
            forall node, is_Some (handlers s !! node) -> fires st node = false)
    as Hquiet.
  { intros st _ Hhst Hcst node [[ctx c] Hnode]. unfold fires.
    rewrite Hhst, Hh, Hnode, Hcst. apply bool_decide_eq_false.
    intros Hopen. apply Hopen, (Hclosed node ctx c). now rewrite Hh. }
  assert (forall st sid, audioProcessorsRef st = ∅ ->
            ~ is_Some (audioProcessorsRef st !! sid)) as Hnone
    by (intros st sid ->; rewrite lookup_empty; now intros [? [=]]).
  destruct lp as [p|].
  - destruct (audioStream p) as [stream|] eqn:Hs.
    + destruct (processAudioStream_frame h stream (sessionId p) "Local User" true
                  (logged h "Local participant audio detected"
                     (logged h "AudioContext created"
                        (setAudioContextRef (Some (nextId s1))
                           (setNextId (S (nextId s1)) s1)))))
        as (Hcl & Hold & Hother).
      split.
      * intros sid Hsid. exists p, stream. split; [reflexivity|]. split; [exact Hs|].
        destruct (decide (sid = sessionId p)) as [->|Hne]; [reflexivity|].
        rewrite (Hother sid Hne) in Hsid. exfalso. revert Hsid.
        now apply Hnone.
      * intros node [[ctx c] Hnode]. unfold fires.
        rewrite Hold by (cbn; specialize (Hnodes node ctx c Hnode); lia).
        rewrite Hcl.
        change (handlers s1 !! node) with (handlers s1 !! node).
        apply (Hquiet (logged h "Local participant audio detected"
                         (logged h "AudioContext created"
                            (setAudioContextRef (Some (nextId s1))
                               (setNextId (S (nextId s1)) s1)))));
          [exact Hempty|reflexivity|reflexivity|eauto].
    + split.
      * intros sid Hsid. exfalso. revert Hsid. now apply Hnone.
      * now apply Hquiet.
  - split.
    + intros sid Hsid. exfalso. revert Hsid. now apply Hnone.
    + now apply Hquiet.
Qed.

Lemma local_change_resets_chains_example :
  (forall sid,
     is_Some (audioProcessorsRef
                (exec (handle okHost (LocalParticipantChanged (Some dana)))
                   threeRemote) !! sid) ->
     exists p stream,
       Some dana = Some p /\ audioStream p = Some stream /\ sid = sessionId p) /\
  fires threeRemote 3%nat = true /\
  fires (exec (handle okHost (LocalParticipantChanged (Some dana))) threeRemote)
    3%nat = false.
Proof.
  assert (reachable threeRemote) as Hreach
    by (unfold threeRemote, mountedWithAlice;
        apply reachable_handle, reachable_mount).
  destruct (local_change_resets_chains okHost (Some dana) threeRemote Hreach)
    as [Hreg Hquiet].
  split; [exact Hreg|]. split; [reflexivity|].
  apply Hquiet. apply (mk_is_Some _ (0%nat, aliceClosure)). reflexivity.
Defined.

(** X12. The teardown does not release what a failed construction left
    behind: when, in a state the component reaches, the build of a chain
    throws at one of its last two connections, the new source node is
    already connected to the new analyser, the session is not registered,
    and after the cleanup that connection is still in the graph. *)
Theorem failed_chain_survives_teardown (h h' : Host) (stream : MediaStream)
    (sid pname : string) (loc : bool) (s : State) (call : HostCall) :
  reachable s ->
  throwsAt h stream = Some call ->
  call = ConnectAnalyserToProcessor \/ call = ConnectProcessorToDestination ->
  audioProcessorsRef (exec (processAudioStream h stream sid pname loc) s) =
    audioProcessorsRef s /\
  (MediaStreamAudioSourceNode (nextId s), AnalyserNode (S (nextId s)))
    ∈ connections (exec (processAudioStream h stream sid pname loc) s) /\
  (MediaStreamAudioSourceNode (nextId s), AnalyserNode (S (nextId s)))
    ∈ connections
        (exec (cleanupEffect h')
           (exec (processAudioStream h stream sid pname loc) s)).
Proof.
  intros Hreach Hthrow Hlate.
  destruct (reachable_sound s Hreach)
    as ((_ & (_ & _ & Hnodes) & _) & (ctx & Hctx & _) & Hlive).
  destruct (processAudioStream_fails h stream sid pname loc s call Hthrow)
    as (_ & _ & Hreg).
  pose proof (processAudioStream_throws_late h ctx stream sid pname loc s call
                Hctx Hthrow Hlate) as Hedge.
  split; [exact Hreg|]. split; [exact Hedge|].
  rewrite exec_cleanupEffect, connections_tornDown, Hreg.
  apply detachAll_elem. split; [exact Hedge|].
  intros [sid' chain] Hentry%elem_of_map_to_list. cbn [fst snd].
  split; [|discriminate].
  destruct (Hlive sid' chain Hentry) as (_ & Hproc & ctx' & cl & _ & Hcl & _).
  specialize (Hnodes _ _ _ Hcl). intros [= Heq]. lia.
Qed.

Lemma failed_chain_survives_teardown_bob :
  audioProcessorsRef bobOrphaned = audioProcessorsRef mountedWithAlice /\
  (MediaStreamAudioSourceNode 4, AnalyserNode 5) ∈ connections bobOrphaned /\
  (MediaStreamAudioSourceNode 4, AnalyserNode 5)
    ∈ connections (exec (cleanupEffect okHost) bobOrphaned).
Proof.
  apply (failed_chain_survives_teardown badHost okHost 2%nat "s-bob" "Bob" false
           mountedWithAlice ConnectProcessorToDestination).
  - unfold mountedWithAlice. apply reachable_mount.
  - reflexivity.
  - now right.
Defined.

(** X13. Chains do not interfere: after any interleaving of deliveries to
    any nodes, the throttle state of a chain whose context is open is what
    its own deliveries, in their order, make of it. *)
Theorem deliveries_do_not_interfere (node ctx : nat) (c : Closure)
    (ds : list (nat * Invocation)) (s : State) :
  handlers s !! node = Some (ctx, c) ->
  ctx ∉ closedContexts s ->
  handlers (exec (deliver ds) s) !! node =
    Some (ctx, after c (deliveredTo node ds)).
Proof.
  revert s c. induction ds as [|[n i] ds IH]; intros s c Hnode Hopen.
  - exact Hnode.
  - rewrite exec_deliver_cons. cbn [fst snd].
    destruct (audioprocess_frame n i s) as [Hcl Hother].
    unfold deliveredTo. destruct (decide (n = node)) as [->|Hne].
    + rewrite filter_cons_True by reflexivity. cbn [fmap list_fmap snd].
      rewrite after_cons. apply IH; [|now rewrite Hcl].
      now apply audioprocess_own.
    + rewrite filter_cons_False by exact Hne.
      apply IH; [|now rewrite Hcl]. rewrite Hother by congruence. exact Hnode.
Qed.

Lemma deliveries_do_not_interfere_example :
  handlers
    (exec (deliver [(6%nat, mkInvocation squareWave 1700000000000 "10:00:05");
                    (3%nat, mkInvocation squareWave 1700000000100 "10:00:05");
                    (6%nat, mkInvocation squareWave 1700000000200 "10:00:05")])
       threeRemote) !! 3%nat =
    Some (0%nat, mkClosure false "Alice" "s-alice" 1700000000100).
Proof.
  apply (deliveries_do_not_interfere 3%nat 0%nat aliceClosure
           [(6%nat, mkInvocation squareWave 1700000000000 "10:00:05");
            (3%nat, mkInvocation squareWave 1700000000100 "10:00:05");
            (6%nat, mkInvocation squareWave 1700000000200 "10:00:05")]
           threeRemote).
  - reflexivity.
  - vm_compute. discriminate.
Defined.

(** X14. [processAudioStream] replaces, it does not stop: called for a
    session that is already registered, in a state the component reaches
    and on a host that does not throw, it registers a new chain under the
    same key (the registry keeps its size) while the processor of the
    chain it replaces, a different node, keeps its handler and is still
    served. *)
Theorem direct_reattach_keeps_old_chain (h : Host) (stream : MediaStream)
    (sid pname : string) (loc : bool) (s : State) (old : Chain) :
  reachable s ->
  throwsAt h stream = None ->
  audioProcessorsRef s !! sid = Some old ->
  audioProcessorsRef (exec (processAudioStream h stream sid pname loc) s) !! sid =
    Some (mkChain (nextId s) (S (S (nextId s))) (S (nextId s))) /\
  processorNode old <> S (S (nextId s)) /\
  size (audioProcessorsRef (exec (processAudioStream h stream sid pname loc) s)) =
    size (audioProcessorsRef s) /\
  handlers (exec (processAudioStream h stream sid pname loc) s) !! processorNode old =
    handlers s !! processorNode old /\
  fires (exec (processAudioStream h stream sid pname loc) s) (processorNode old) = true.
Proof.
  intros Hreach Hok Hold.
  destruct (reachable_sound s Hreach)
    as ((_ & (_ & _ & Hnodes) & _) & (ctx & Hctx & Hopen) & Hlive).
  destruct (Hlive sid old Hold) as (_ & _ & ctx' & cl & Hctx' & Hcl & _).
  assert (ctx' = ctx) as -> by congruence.
  pose proof (Hnodes _ _ _ Hcl) as Hbelow.
  destruct (processAudioStream_frame h stream sid pname loc s) as (Hclosed & Hkeep & _).
  assert (audioProcessorsRef (exec (processAudioStream h stream sid pname loc) s) =
          <[sid := mkChain (nextId s) (S (S (nextId s))) (S (nextId s))]>
            (audioProcessorsRef s)) as Hreg
    by (unfold exec; now rewrite (processAudioStream_ok h ctx)).
  split; [rewrite Hreg; apply lookup_insert_eq|]. split; [lia|].
  split; [rewrite Hreg; apply map_size_insert_Some; eauto|].
  split; [now apply Hkeep|].
  unfold fires. rewrite (Hkeep _ Hbelow), Hcl, Hclosed.
  now apply bool_decide_eq_true.
Qed.

Lemma direct_reattach_keeps_old_chain_alice :
  audioProcessorsRef
    (exec (processAudioStream okHost 1%nat "s-alice" "Alice" false) mountedWithAlice)
    !! "s-alice" = Some (mkChain 4 6 5) /\
  3%nat <> 6%nat /\
  size (audioProcessorsRef
          (exec (processAudioStream okHost 1%nat "s-alice" "Alice" false)
             mountedWithAlice)) = size (audioProcessorsRef mountedWithAlice) /\
  handlers
    (exec (processAudioStream okHost 1%nat "s-alice" "Alice" false) mountedWithAlice)
    !! 3%nat = handlers mountedWithAlice !! 3%nat /\
  fires (exec (processAudioStream okHost 1%nat "s-alice" "Alice" false)
           mountedWithAlice) 3%nat = true.
Proof.
  apply (direct_reattach_keeps_old_chain okHost 1%nat "s-alice" "Alice" false
           mountedWithAlice (mkChain 1 3 2)).
  - unfold mountedWithAlice. apply reachable_mount.
  - reflexivity.
  - reflexivity.
Defined.
